(** * Hit-chance calculator: the probability engine of [main.cc]

    A shallow embedding of [computeOptions] and of the three closures it
    builds ([computeDealer], [standProbs], [optimal]), with the memo tables
    as explicit state, and the properties the design document states about
    them.

    Numbers.  C++ [int] is modelled as [Z].  The only sums of the source
    that can leave the range of [int] are the [hand_score + v] of line 142,
    for a hand score above [INT_MAX - 10]; every statement that lets the
    hand score range freely bounds it by that value.  C++ [double] is modelled by Rocq's primitive
    binary64 floats: the source only adds, subtracts, divides and compares
    doubles, which IEEE 754 round-to-nearest fixes bit for bit.

    Containers.  The [std::vector] tables are lists, read and written by
    index with stdpp's lookup and insert; [operator[]] outside the vector is
    undefined behaviour in C++ and is the outcome [OutOfBounds] here.

    Recursion.  [computeDealer] and [optimal] are recursive closures; they
    take a fuel argument, and running out of it is the outcome [OutOfFuel]. *)

From Stdlib Require Import ZArith List Bool Lia String.
From Stdlib Require Import Floats.PrimFloat.
From stdpp Require Import base list.

Local Open Scope Z_scope.

(** ** Outcomes of a run *)

Inductive result (A : Type) : Type :=
| Ok (a : A)
| OutOfBounds
| OutOfFuel.
Arguments Ok {A} a.
Arguments OutOfBounds {A}.
Arguments OutOfFuel {A}.

(** ** The rule constants of [computeOptions] *)

Definition TARGET : Z := 21.
Definition MAX_CARD : Z := 10.
Definition MAX_SUM : Z := TARGET + MAX_CARD.

(** ** The memo tables *)

(** One entry of the access log: which table cell an indexing expression
    named.  The log is ghost state; the program never reads it. *)
Inductive access : Type :=
| AccDealer (i j : Z)
| AccMemo (i : Z).

Record state : Type := mkState {
  dealerBust : list (list float);
  dealerLess : list (list float);
  dealerEqual : list (list float);
  memoWin : list float;
  memoLoss : list float;
  trace : list access
}.

(** [std::vector<double>(n, x)] *)
Definition vec (n : Z) (x : float) : list float := replicate (Z.to_nat n) x.
(** [std::vector<std::vector<double>>(n, std::vector<double>(m, x))] *)
Definition vec2 (n m : Z) (x : float) : list (list float) :=
  replicate (Z.to_nat n) (vec m x).

Definition init_state : state :=
  {| dealerBust := vec2 (MAX_SUM + 1) (TARGET + 1) (-1)%float;
     dealerLess := vec2 (MAX_SUM + 1) (TARGET + 1) (-1)%float;
     dealerEqual := vec2 (MAX_SUM + 1) (TARGET + 1) (-1)%float;
     memoWin := vec (MAX_SUM + 1) (-1)%float;
     memoLoss := vec (MAX_SUM + 1) (-1)%float;
     trace := [] |}.

(** [t[i]] and [t[i][j]] as partial functions of the indices. *)
Definition at1 (t : list float) (i : Z) : option float :=
  if 0 <=? i then t !! Z.to_nat i else None.

Definition at2 (t : list (list float)) (i j : Z) : option float :=
  if 0 <=? i then
    match t !! Z.to_nat i with
    | Some row => at1 row j
    | None => None
    end
  else None.

(** [t[i] = x] and [t[i][j] = x]; only called after the index was checked. *)
Definition set1 (t : list float) (i : Z) (x : float) : list float :=
  <[Z.to_nat i := x]> t.

Definition set2 (t : list (list float)) (i j : Z) (x : float)
  : list (list float) :=
  alter (fun row => set1 row j x) (Z.to_nat i) t.

(** ** The state and error monad the closures run in *)

Definition M (A : Type) : Type := state -> result (A * state).

Definition ret {A} (a : A) : M A := fun st => Ok (a, st).

Definition bind {A B} (m : M A) (k : A -> M B) : M B :=
  fun st =>
    match m st with
    | Ok (a, st') => k a st'
    | OutOfBounds => OutOfBounds
    | OutOfFuel => OutOfFuel
    end.

Notation "'let*' x ':=' m 'in' k" := (bind m (fun x => k))
  (at level 10, x pattern, m at level 100, k at level 200).

Definition log (a : access) (st : state) : state :=
  mkState (dealerBust st) (dealerLess st) (dealerEqual st)
          (memoWin st) (memoLoss st) (a :: trace st).

(** Reading a cell. *)
Definition rd2 (tbl : state -> list (list float)) (i j : Z) : M float :=
  fun st =>
    match at2 (tbl st) i j with
    | Some x => Ok (x, log (AccDealer i j) st)
    | None => OutOfBounds
    end.

Definition rd1 (tbl : state -> list float) (i : Z) : M float :=
  fun st =>
    match at1 (tbl st) i with
    | Some x => Ok (x, log (AccMemo i) st)
    | None => OutOfBounds
    end.

(** Writing a cell, one writer per table. *)
Definition wrBust (i j : Z) (x : float) : M unit :=
  fun st =>
    match at2 (dealerBust st) i j with
    | Some _ =>
        Ok (tt, mkState (set2 (dealerBust st) i j x) (dealerLess st)
                        (dealerEqual st) (memoWin st) (memoLoss st)
                        (AccDealer i j :: trace st))
    | None => OutOfBounds
    end.

Definition wrLess (i j : Z) (x : float) : M unit :=
  fun st =>
    match at2 (dealerLess st) i j with
    | Some _ =>
        Ok (tt, mkState (dealerBust st) (set2 (dealerLess st) i j x)
                        (dealerEqual st) (memoWin st) (memoLoss st)
                        (AccDealer i j :: trace st))
    | None => OutOfBounds
    end.

Definition wrEqual (i j : Z) (x : float) : M unit :=
  fun st =>
    match at2 (dealerEqual st) i j with
    | Some _ =>
        Ok (tt, mkState (dealerBust st) (dealerLess st)
                        (set2 (dealerEqual st) i j x) (memoWin st)
                        (memoLoss st) (AccDealer i j :: trace st))
    | None => OutOfBounds
    end.

Definition wrWin (i : Z) (x : float) : M unit :=
  fun st =>
    match at1 (memoWin st) i with
    | Some _ =>
        Ok (tt, mkState (dealerBust st) (dealerLess st) (dealerEqual st)
                        (set1 (memoWin st) i x) (memoLoss st)
                        (AccMemo i :: trace st))
    | None => OutOfBounds
    end.

Definition wrLoss (i : Z) (x : float) : M unit :=
  fun st =>
    match at1 (memoLoss st) i with
    | Some _ =>
        Ok (tt, mkState (dealerBust st) (dealerLess st) (dealerEqual st)
                        (memoWin st) (set1 (memoLoss st) i x)
                        (AccMemo i :: trace st))
    | None => OutOfBounds
    end.

(** [for (int v = 1; v <= MAX_CARD; ++v) body], the loop-carried locals
    being the accumulator. *)
Fixpoint for_each {A} (vs : list Z) (body : Z -> A -> M A) (acc : A) : M A :=
  match vs with
  | [] => ret acc
  | v :: vs' => let* acc' := body v acc in for_each vs' body acc'
  end.

Definition card_values : list Z := seqZ 1 MAX_CARD.

Definition for_cards {A} (body : Z -> A -> M A) (acc : A) : M A :=
  for_each card_values body acc.

(** Comparisons of doubles, written as the source writes them. *)
Definition fge (x y : float) : bool := PrimFloat.leb y x.   (* x >= y *)
Definition fgt (x y : float) : bool := PrimFloat.ltb y x.   (* x >  y *)
Definition flt (x y : float) : bool := PrimFloat.ltb x y.   (* x <  y *)
Definition feq (x y : float) : bool := PrimFloat.eqb x y.   (* x == y *)

Definition unset : float := (-0.5)%float.
Definition ten : float := 10%float.  (* double(MAX_CARD) *)

(** ** [computeDealer] (main.cc, lines 43-75) *)

Fixpoint computeDealer (fuel : nat) (s pt : Z) : M unit :=
  match fuel with
  | O => fun _ => OutOfFuel
  | S fuel' =>
    if s >? MAX_SUM then ret tt else
    let* b0 := rd2 dealerBust s pt in
    if fge b0 unset then ret tt else
    if s >? TARGET then
      let* _ := wrBust s pt 1%float in
      let* _ := wrLess s pt 0%float in
      wrEqual s pt 0%float
    else if s >=? 17 then
      let* _ := wrBust s pt 0%float in
      let* _ := wrLess s pt (if s <? pt then 1%float else 0%float) in
      wrEqual s pt (if s =? pt then 1%float else 0%float)
    else
      let* (accBust, accLess, accEqual) :=
        for_cards (fun v '(accBust, accLess, accEqual) =>
          let ns := s + v in
          if ns >? MAX_SUM then
            ret ((accBust + 1)%float, accLess, accEqual)
          else
            let* c := rd2 dealerBust ns pt in
            let* _ := (if flt c unset then computeDealer fuel' ns pt
                       else ret tt) in
            let* b := rd2 dealerBust ns pt in
            let* l := rd2 dealerLess ns pt in
            let* e := rd2 dealerEqual ns pt in
            ret ((accBust + b)%float, (accLess + l)%float,
                 (accEqual + e)%float))
          (0%float, 0%float, 0%float) in
      let* _ := wrBust s pt (accBust / ten)%float in
      let* _ := wrLess s pt (accLess / ten)%float in
      wrEqual s pt (accEqual / ten)%float
  end.

(** ** [standProbs] (main.cc, lines 77-96) *)

Definition standProbs (fuel : nat) (dealer_upcard s : Z) : M (float * float) :=
  if s >? TARGET then ret (0%float, 1%float) else
  let* (win, loss) :=
    for_cards (fun hole '(win, loss) =>
      let start := dealer_upcard + hole in
      if start >? MAX_SUM then
        ret ((win + 1)%float, loss)
      else
        let* c := rd2 dealerBust start s in
        let* _ := (if flt c unset then computeDealer fuel start s
                   else ret tt) in
        let* b := rd2 dealerBust start s in
        let* b' := rd2 dealerBust start s in
        let* l' := rd2 dealerLess start s in
        let* e' := rd2 dealerEqual start s in
        let l := (1 - (b' + l' + e'))%float in
        let* dl := rd2 dealerLess start s in
        ret ((win + (b + dl))%float, (loss + l)%float))
      (0%float, 0%float) in
  ret ((win / ten)%float, (loss / ten)%float).

(** ** [optimal] (main.cc, lines 102-126) *)

Fixpoint optimal (fuel : nat) (dealer_upcard s : Z) : M (float * float) :=
  match fuel with
  | O => fun _ => OutOfFuel
  | S fuel' =>
    if s >? TARGET then ret (0%float, 1%float) else
    let* cached :=
      (if s <=? MAX_SUM then
         let* w := rd1 memoWin s in
         if fge w unset then
           let* w' := rd1 memoWin s in
           let* l' := rd1 memoLoss s in
           ret (Some (w', l'))
         else ret None
       else ret None) in
    match cached with
    | Some r => ret r
    | None =>
      let* stand := standProbs fuel dealer_upcard s in
      let* (hitW, hitL) :=
        for_cards (fun v '(hitW, hitL) =>
          let ns := s + v in
          let* res := optimal fuel' dealer_upcard ns in
          ret ((hitW + fst res)%float, (hitL + snd res)%float))
          (0%float, 0%float) in
      let hitW := (hitW / ten)%float in
      let hitL := (hitL / ten)%float in
      if fge (fst stand) hitW then
        let* _ := (if s <=? MAX_SUM then
                     let* _ := wrWin s (fst stand) in wrLoss s (snd stand)
                   else ret tt) in
        ret (fst stand, snd stand)
      else
        let* _ := (if s <=? MAX_SUM then
                     let* _ := wrWin s hitW in wrLoss s hitL
                   else ret tt) in
        ret (hitW, hitL)
    end
  end.

(** ** [Options] and [computeOptions] (main.cc, lines 18-26 and 30-154) *)

Record Options : Type := mkOptions {
  standWin : float;
  standLoss : float;
  hitWin : float;
  hitLoss : float;
  optWin : float;
  optLoss : float;
  bestAction : string
}.

(** [Options out{}]: every double is 0.0 and the string is empty. *)
Definition Options_zero : Options :=
  mkOptions 0%float 0%float 0%float 0%float 0%float 0%float EmptyString.

(** The immediate-hit loop of lines 140-146, up to the two divisions.  The
    sum [hand_score + v] is exact here and an [int] in the source: the two
    agree for hand_score <= INT_MAX - 10, beyond which the source
    overflows. *)
Definition hitImmediate (fuel : nat) (hand_score dealer_upcard : Z)
  : M (float * float) :=
  let* (hitW, hitL) :=
    for_cards (fun v '(hitW, hitL) =>
      let* r := optimal fuel dealer_upcard (hand_score + v) in
      ret ((hitW + fst r)%float, (hitL + snd r)%float))
      (0%float, 0%float) in
  ret ((hitW / ten)%float, (hitL / ten)%float).

(** The label of lines 149-151. *)
Definition label (standWin_ hitWin_ : float) : string :=
  if fgt standWin_ hitWin_ then "stand"
  else if fgt hitWin_ standWin_ then "hit"
  else "equal".

(** Lines 128-153: the body of [computeOptions] once the tables exist.
    [out] is rebuilt at each assignment to one of its fields. *)
Definition computeOptions_body (fuel : nat) (hand_score dealer_upcard : Z)
  : M Options :=
  let out := Options_zero in
  let* opt := optimal fuel dealer_upcard hand_score in
  let out := mkOptions (standWin out) (standLoss out) (hitWin out)
               (hitLoss out) (fst opt) (snd opt) (bestAction out) in
  let out := mkOptions (standWin out) (standLoss out) (hitWin out)
               (hitLoss out) (optWin out) (optLoss out)
               (if feq (optWin out) (-1)%float then "bust" else "optimal") in
  let* st := standProbs fuel dealer_upcard hand_score in
  let out := mkOptions (fst st) (snd st) (hitWin out) (hitLoss out)
               (optWin out) (optLoss out) (bestAction out) in
  let* hit := hitImmediate fuel hand_score dealer_upcard in
  let out := mkOptions (standWin out) (standLoss out) (fst hit) (snd hit)
               (optWin out) (optLoss out) (bestAction out) in
  let out := mkOptions (standWin out) (standLoss out) (hitWin out)
               (hitLoss out) (optWin out) (optLoss out)
               (label (standWin out) (hitWin out)) in
  ret out.

(** A run of [computeOptions]: the report, and the log of the table cells
    the run indexed (empty when it returns before the tables exist). *)
Definition computeOptions_run (fuel : nat) (hand_score dealer_upcard : Z)
  : result (Options * list access) :=
  let out := Options_zero in
  if (dealer_upcard <? 1) || (dealer_upcard >? 10) then Ok (out, [])
  else
    match computeOptions_body fuel hand_score dealer_upcard init_state with
    | Ok (out, st) => Ok (out, trace st)
    | OutOfBounds => OutOfBounds
    | OutOfFuel => OutOfFuel
    end.

Definition computeOptions (fuel : nat) (hand_score dealer_upcard : Z)
  : result Options :=
  match computeOptions_run fuel hand_score dealer_upcard with
  | Ok (out, _) => Ok out
  | OutOfBounds => OutOfBounds
  | OutOfFuel => OutOfFuel
  end.

(** Fuel that is enough for every total from 0 on: at most 23 nested calls
    of [optimal], the innermost of which starts at most 18 nested calls of
    [computeDealer]. *)
Definition FUEL : nat := 41.

(** ** What the design calls [dealerOutcome]

    The triple a caller reads from the three dealer tables once
    [computeDealer(s, pt)] has returned (lines 66-69 and 85-87). *)

Definition outcome : Type := float * float * float.

Definition dealerOutcome (fuel : nat) (s pt : Z) : M outcome :=
  let* _ := computeDealer fuel s pt in
  let* b := rd2 dealerBust s pt in
  let* l := rd2 dealerLess s pt in
  let* e := rd2 dealerEqual s pt in
  ret (b, l, e).

(** [returns m st a]: from the tables [st], the computation [m] terminates
    normally with the value [a]. *)
Definition returns {A} (m : M A) (st : state) (a : A) : Prop :=
  exists st', m st = Ok (a, st').

(** ** Sums and means over the ten card values

    The loops add the terms for v = 1, 2, ..., 10 in this order to an
    accumulator that starts at 0.0, and divide by 10.0 after the loop. *)

Definition add2 (acc x : float * float) : float * float :=
  ((fst acc + fst x)%float, (snd acc + snd x)%float).

Definition add3 (acc x : outcome) : outcome :=
  let '(b, l, e) := acc in
  let '(b', l', e') := x in
  ((b + b')%float, (l + l')%float, (e + e')%float).

Definition sum2 (f : Z -> float * float) : float * float :=
  fold_left (fun acc v => add2 acc (f v)) card_values (0%float, 0%float).

Definition sum3 (f : Z -> outcome) : outcome :=
  fold_left (fun acc v => add3 acc (f v)) card_values
            (0%float, 0%float, 0%float).

Definition mean2 (f : Z -> float * float) : float * float :=
  let '(w, l) := sum2 f in ((w / ten)%float, (l / ten)%float).

Definition mean3 (f : Z -> outcome) : outcome :=
  let '(b, l, e) := sum3 f in
  ((b / ten)%float, (l / ten)%float, (e / ten)%float).

(** ** The functions the tables memoise

    The three recursions with the table lookups erased: what each closure
    computes on a cell it has not filled yet.  They are the reference the
    table invariant is stated against.  Two guards of the source are left
    out because they cannot fire where these functions are used: below 17
    the next dealer total is at most 26, so [ns > MAX_SUM] (line 63) is
    false, and with an upcard of at most 10 the dealer starts at 20 at most,
    so [start > MAX_SUM] (line 82) is false.  The fuel of [dealer_rec] and
    [optimal_rec] only makes the recursion structural; 17 and 22 are enough
    for totals from 0 on ([dealer_rec_fuel], [optimal_rec_fuel]). *)

Definition bust_outcome : outcome := (1%float, 0%float, 0%float).

Definition stop_outcome (s pt : Z) : outcome :=
  (0%float, if s <? pt then 1%float else 0%float,
            if s =? pt then 1%float else 0%float).

Fixpoint dealer_rec (n : nat) (s pt : Z) : outcome :=
  if s >? TARGET then bust_outcome
  else if s >=? 17 then stop_outcome s pt
  else match n with
       | O => bust_outcome
       | S n' => mean3 (fun v => dealer_rec n' (s + v) pt)
       end.

Definition dealer_value (s pt : Z) : outcome := dealer_rec 17 s pt.

(** One hole card's contribution to the two accumulators of [standProbs]. *)
Definition stand_term (o : outcome) : float * float :=
  let '(b, l, e) := o in ((b + l)%float, (1 - (b + l + e))%float).

Definition stand_value (dealer_upcard s : Z) : float * float :=
  if s >? TARGET then (0%float, 1%float)
  else mean2 (fun hole => stand_term (dealer_value (dealer_upcard + hole) s)).

(** The choice of lines 119-125. *)
Definition choose (stand hit : float * float) : float * float :=
  if fge (fst stand) (fst hit) then stand else hit.

Fixpoint optimal_rec (n : nat) (dealer_upcard s : Z) : float * float :=
  if s >? TARGET then (0%float, 1%float)
  else match n with
       | O => (0%float, 1%float)
       | S n' =>
           choose (stand_value dealer_upcard s)
                  (mean2 (fun v => optimal_rec n' dealer_upcard (s + v)))
       end.

Definition optimal_value (dealer_upcard s : Z) : float * float :=
  optimal_rec 22 dealer_upcard s.

Definition hit_value (dealer_upcard s : Z) : float * float :=
  mean2 (fun v => optimal_value dealer_upcard (s + v)).

Definition options_value (hand_score dealer_upcard : Z) : Options :=
  let st := stand_value dealer_upcard hand_score in
  let hit := hit_value dealer_upcard hand_score in
  let opt := optimal_value dealer_upcard hand_score in
  mkOptions (fst st) (snd st) (fst hit) (snd hit) (fst opt) (snd opt)
            (label (fst st) (fst hit)).

(** ** The invariant of the memo tables *)

Definition entry (st : state) (s pt : Z) : option outcome :=
  match at2 (dealerBust st) s pt, at2 (dealerLess st) s pt,
        at2 (dealerEqual st) s pt with
  | Some b, Some l, Some e => Some (b, l, e)
  | _, _, _ => None
  end.

(** A cell counts as filled when one of the two tests of the source takes
    it for filled: [x >= -0.5] (lines 45 and 104) or not [x < -0.5]
    (lines 66 and 85). *)
Definition is_set (x : float) : Prop :=
  fge x unset = true \/ flt x unset = false.

(** Every cell of the dealer tables exists, and a filled cell holds the
    value of the recursion. *)
Definition wf_dealer (st : state) : Prop :=
  forall s pt, 0 <= s <= MAX_SUM -> 0 <= pt <= TARGET ->
    exists o, entry st s pt = Some o /\
              (is_set (fst (fst o)) -> o = dealer_value s pt).

Definition wf_memo (dealer_upcard : Z) (st : state) : Prop :=
  forall s, 0 <= s <= TARGET ->
    exists w l, at1 (memoWin st) s = Some w /\ at1 (memoLoss st) s = Some l /\
                (fge w unset = true -> (w, l) = optimal_value dealer_upcard s).

Definition wf (dealer_upcard : Z) (st : state) : Prop :=
  wf_dealer st /\ wf_memo dealer_upcard st.

(** Weakest precondition for total correctness: from [st] the computation
    terminates normally, with a value and tables that satisfy [Q]. *)
Definition wp {A} (m : M A) (Q : A -> state -> Prop) (st : state) : Prop :=
  exists a st', m st = Ok (a, st') /\ Q a st'.

(** [m2] returns whatever [m1] returns. *)
Definition le_run {A} (m1 m2 : M A) : Prop :=
  forall st r, m1 st = Ok r -> m2 st = Ok r.

(** What a call of [computeDealer] leaves behind: the invariant, the memo of
    [optimal] untouched, and the cell it was called for filled. *)
Definition dealer_post (st : state) (s pt : Z) (st' : state) : Prop :=
  wf_dealer st' /\ memoWin st' = memoWin st /\ memoLoss st' = memoLoss st /\
  (s <= MAX_SUM -> entry st' s pt = Some (dealer_value s pt)).

(** ** Tabulated runs

    The hand scores 0..21 and the upcards 1..10 form a finite grid, and so
    do the dealer totals 0..31 with the player totals 0..21.  Each table
    holds one run from fresh tables per grid point, evaluated once; a
    boolean property of the values is then decided by a pass over the
    table. *)

Definition grid : list (Z * Z) :=
  flat_map (fun hs => map (fun du => (hs, du)) (seqZ 1 10)) (seqZ 0 22).

Definition run_options (p : Z * Z) : Z * Z * result Options :=
  (fst p, snd p, computeOptions FUEL (fst p) (snd p)).

Definition options_table : list (Z * Z * result Options) :=
  Eval vm_compute in map run_options grid.

Definition check_options (P : Z -> Z -> Options -> bool) : bool :=
  forallb (fun '(hs, du, r) =>
             match r with Ok o => P hs du o | _ => false end)
          options_table.

Definition dealer_grid : list (Z * Z) :=
  flat_map (fun s => map (fun pt => (s, pt)) (seqZ 0 22)) (seqZ 0 32).

Definition eval_dealer (s pt : Z) : option outcome :=
  match dealerOutcome FUEL s pt init_state with
  | Ok (o, _) => Some o
  | _ => None
  end.

Definition run_dealer (p : Z * Z) : Z * Z * option outcome :=
  (fst p, snd p, eval_dealer (fst p) (snd p)).

Definition dealer_table : list (Z * Z * option outcome) :=
  Eval vm_compute in map run_dealer dealer_grid.

Definition check_dealer (P : Z -> Z -> outcome -> bool) : bool :=
  forallb (fun '(s, pt, r) =>
             match r with Some o => P s pt o | None => false end)
          dealer_table.

(** ** Predicates of the statements *)

(** Exactly one of the two probabilities is 1.0. *)
Definition exactly_one_is_one (less equal : float) : bool :=
  xorb (feq less 1%float) (feq equal 1%float).

(** [0 <= x <= 1] on doubles. *)
Definition in01 (x : float) : bool := fge x 0%float && fge 1%float x.

(** The two bounds that rounding moves: -2^-54 and 1 + 2^-52. *)
Definition loss_floor : float := (-0x1p-54)%float.
Definition sum_ceiling : float := 0x1.0000000000001p+0%float.

(** [loss_floor <= x <= 1] on doubles. *)
Definition loss_ok (x : float) : bool := fge x loss_floor && fge 1%float x.

(** The cells an indexing expression may name: dealer tables at
    [2..26][4..21], memoWin and memoLoss at [4..31]. *)
Definition in_range (a : access) : bool :=
  match a with
  | AccDealer i j => (2 <=? i) && (i <=? 26) && (4 <=? j) && (j <=? 21)
  | AccMemo i => (4 <=? i) && (i <=? 31)
  end.

Definition run_in_range (p : Z * Z) : bool :=
  match computeOptions_run FUEL (fst p) (snd p) with
  | Ok (_, tr) => forallb in_range tr
  | _ => false
  end.

(** The largest [int], and the largest hand score for which the sums
    [hand_score + v], v = 1..10, of line 142 do not overflow. *)
Definition INT_MAX : Z := 2147483647.
Definition MAX_HAND : Z := INT_MAX - MAX_CARD.

(** ** [calculateHitChance] (main.cc, lines 157-160) *)

Definition calculateHitChance (fuel : nat) (hand_score dealer_upcard : Z)
  : result (float * float) :=
  match computeOptions fuel hand_score dealer_upcard with
  | Ok o => Ok (optWin o, optLoss o)
  | OutOfBounds => OutOfBounds
  | OutOfFuel => OutOfFuel
  end.

(** The five tables of two states are the same; only the access log may
    differ. *)
Definition same_tables (st st' : state) : Prop :=
  dealerBust st' = dealerBust st /\ dealerLess st' = dealerLess st /\
  dealerEqual st' = dealerEqual st /\ memoWin st' = memoWin st /\
  memoLoss st' = memoLoss st.

(** The cell (s, pt) of the three dealer tables is the same in two states. *)
Definition cell_eq (st st' : state) (s pt : Z) : Prop :=
  at2 (dealerBust st') s pt = at2 (dealerBust st) s pt /\
  at2 (dealerLess st') s pt = at2 (dealerLess st) s pt /\
  at2 (dealerEqual st') s pt = at2 (dealerEqual st) s pt.

(** The cell (s, pt) passes the test of line 45: [computeDealer] takes it
    for computed. *)
Definition filled (st : state) (s pt : Z) : Prop :=
  exists b, at2 (dealerBust st) s pt = Some b /\ fge b unset = true.

(** What a call [computeDealer(s, pt)] cannot change: the memo of
    [optimal], the columns of other player totals, the rows below [s], and
    the cells that were already filled. *)
Definition dealer_frame (s pt : Z) (st st' : state) : Prop :=
  memoWin st' = memoWin st /\ memoLoss st' = memoLoss st /\
  forall s' pt', pt' <> pt \/ s' < s \/ filled st s' pt' ->
                 cell_eq st st' s' pt'.

(** The memo cell [s] passes the test of line 104: [optimal] takes it for
    computed. *)
Definition memo_filled (st : state) (s : Z) : Prop :=
  exists w, at1 (memoWin st) s = Some w /\ fge w unset = true.

(** The dealer cells that were filled, and the columns of the player totals
    below [c], are the same in [st'] as in [st]. *)
Definition dealer_keep (c : Z) (st st' : state) : Prop :=
  forall s' pt', filled st s' pt' \/ pt' < c -> cell_eq st st' s' pt'.

(** The memo cells that were filled, and the memo cells below [m], are the
    same in [st'] as in [st]. *)
Definition memo_keep (m : Z) (st st' : state) : Prop :=
  forall s', memo_filled st s' \/ s' < m ->
             at1 (memoWin st') s' = at1 (memoWin st) s' /\
             at1 (memoLoss st') s' = at1 (memoLoss st) s'.

(** ** [main] (main.cc, lines 162-190)

    [main] formats numbers through the stream library: [out << ps] for an
    [int], and [<< std::fixed << std::setprecision(6) << x] for a [double].
    The two conversions are parameters of the model; everything else, the
    loop nest, the order of the fields, the separators and the test of
    [ratio], is as written in the source.  (Whether the file can be opened
    is not modelled: the source never tests the stream.) *)

Section Report.

Variable show_int : Z -> string.
Variable fixed6 : float -> string.

Local Open Scope string_scope.

Definition newline : string := String (Ascii.ascii_of_nat 10) EmptyString.

Definition csv_header : string :=
  String.append
    "player_score,dealer_upcard,stand_win,stand_loss,stand_win_loss_ratio,hit_win,hit_loss,hit_win_loss_ratio,best_action,opt_win,opt_loss,opt_win_loss_ratio"
    newline.

(** The texts appended one after the other. *)
Definition join (l : list string) : string :=
  fold_right String.append EmptyString l.

(** The lambda [ratio] of lines 169-173. *)
Definition ratio (w l : float) : string :=
  if PrimFloat.leb l 0%float then "inf" else fixed6 (w / l)%float.

(** What lines 174-184 append to the file for one report. *)
Definition csv_row (ps du : Z) (o : Options) : string :=
  join
    [ show_int ps; ","; show_int du; ",";
      fixed6 (standWin o); ","; fixed6 (standLoss o); ",";
      ratio (standWin o) (standLoss o); ",";
      fixed6 (hitWin o); ","; fixed6 (hitLoss o); ",";
      ratio (hitWin o) (hitLoss o); ",";
      bestAction o; ",";
      fixed6 (optWin o); ","; fixed6 (optLoss o); ",";
      ratio (optWin o) (optLoss o); newline ].

(** [for (...) body] over a list of values, threading the text written so
    far and stopping at the first failure. *)
Fixpoint for_rows (vs : list Z) (body : Z -> string -> result string)
         (out : string) : result string :=
  match vs with
  | [] => Ok out
  | v :: vs' =>
      match body v out with
      | Ok out' => for_rows vs' body out'
      | OutOfBounds => OutOfBounds
      | OutOfFuel => OutOfFuel
      end
  end.

(** The text of results.csv, the text on standard output and the exit
    status. *)
Definition main (fuel : nat) : result (string * string * Z) :=
  let out := csv_header in
  match
    for_rows (seqZ 4 18) (fun ps out =>
      for_rows (seqZ 1 10) (fun du out =>
        match computeOptions fuel ps du with
        | Ok o => Ok (String.append out (csv_row ps du o))
        | OutOfBounds => OutOfBounds
        | OutOfFuel => OutOfFuel
        end) out) out
  with
  | Ok out =>
      Ok (out,
          String.append
            "Wrote results.csv (player scores 4..21 vs dealer upcards 1..10)"
            newline,
          0)
  | OutOfBounds => OutOfBounds
  | OutOfFuel => OutOfFuel
  end.

End Report.

(** * Properties *)

(** ** Indexing lemmas *)

Lemma at1_Some_nonneg (t : list float) (i : Z) (x : float) :
  at1 t i = Some x -> 0 <= i.
Proof.
  unfold at1. destruct (0 <=? i) eqn:E; [lia | discriminate].
Qed.

Lemma at1_set1_eq (t : list float) (i : Z) (x y : float) :
  at1 t i = Some y -> at1 (set1 t i x) i = Some x.
Proof.
  unfold at1, set1. destruct (0 <=? i); [|discriminate].
  intros H. apply list_lookup_insert_eq. eapply lookup_lt_Some, H.
Qed.

Lemma at1_set1_ne (t : list float) (i i' : Z) (x : float) :
  0 <= i -> i <> i' -> at1 (set1 t i x) i' = at1 t i'.
Proof.
  intros Hi Hne. unfold at1, set1.
  destruct (0 <=? i') eqn:E; [|reflexivity].
  apply list_lookup_insert_ne. lia.
Qed.

Lemma at2_Some_nonneg (t : list (list float)) (i j : Z) (x : float) :
  at2 t i j = Some x -> 0 <= i /\ 0 <= j.
Proof.
  unfold at2. destruct (0 <=? i) eqn:E; [|discriminate].
  destruct (t !! Z.to_nat i); [|discriminate].
  intros H. apply at1_Some_nonneg in H. lia.
Qed.

Lemma at2_set2_eq (t : list (list float)) (i j : Z) (x y : float) :
  at2 t i j = Some y -> at2 (set2 t i j x) i j = Some x.
Proof.
  unfold at2, set2. destruct (0 <=? i); [|discriminate].
  rewrite list_lookup_alter_eq.
  destruct (t !! Z.to_nat i) as [row|]; [|discriminate]. simpl.
  apply at1_set1_eq.
Qed.

Lemma at2_set2_ne (t : list (list float)) (i j i' j' : Z) (x : float) :
  0 <= i -> 0 <= j -> i <> i' \/ j <> j' ->
  at2 (set2 t i j x) i' j' = at2 t i' j'.
Proof.
  intros Hi Hj Hne. unfold at2, set2.
  destruct (0 <=? i') eqn:E; [|reflexivity].
  destruct (Z.eq_dec i i') as [->|Hii].
  - rewrite list_lookup_alter_eq.
    destruct (t !! Z.to_nat i') as [row|]; [|reflexivity]. simpl.
    apply at1_set1_ne; [lia | tauto].
  - rewrite list_lookup_alter_ne; [reflexivity | lia].
Qed.

Lemma at1_vec (n i : Z) (x : float) :
  0 <= i < n -> at1 (vec n x) i = Some x.
Proof.
  intros H. unfold at1, vec.
  destruct (0 <=? i) eqn:E; [|lia].
  apply lookup_replicate. split; [reflexivity | lia].
Qed.

Lemma at2_vec2 (n m i j : Z) (x : float) :
  0 <= i < n -> 0 <= j < m -> at2 (vec2 n m x) i j = Some x.
Proof.
  intros Hi Hj. unfold at2, vec2.
  destruct (0 <=? i) eqn:E; [|lia].
  rewrite (proj2 (lookup_replicate (Z.to_nat n) (vec m x) (vec m x)
                                   (Z.to_nat i))); [|split; [reflexivity|lia]].
  now apply at1_vec.
Qed.

(** ** Rules of the weakest precondition *)

Lemma wp_ret {A} (a : A) (Q : A -> state -> Prop) (st : state) :
  Q a st -> wp (ret a) Q st.
Proof. intros H. exists a, st. split; [reflexivity | exact H]. Qed.

Lemma wp_bind {A B} (m : M A) (k : A -> M B) (Q : B -> state -> Prop)
      (st : state) :
  wp m (fun a st' => wp (k a) Q st') st -> wp (bind m k) Q st.
Proof.
  intros (a & st1 & E1 & b & st2 & E2 & HQ).
  exists b, st2. unfold bind. rewrite E1. auto.
Qed.

Lemma wp_mono {A} (m : M A) (Q Q' : A -> state -> Prop) (st : state) :
  wp m Q st -> (forall a st', Q a st' -> Q' a st') -> wp m Q' st.
Proof. intros (a & st' & E & HQ) H. exists a, st'. auto. Qed.

Lemma wp_rd2 (tbl : state -> list (list float)) (i j : Z) (x : float)
      (Q : float -> state -> Prop) (st : state) :
  at2 (tbl st) i j = Some x -> Q x (log (AccDealer i j) st) ->
  wp (rd2 tbl i j) Q st.
Proof.
  intros E HQ. exists x, (log (AccDealer i j) st).
  unfold rd2. rewrite E. auto.
Qed.

Lemma wp_rd1 (tbl : state -> list float) (i : Z) (x : float)
      (Q : float -> state -> Prop) (st : state) :
  at1 (tbl st) i = Some x -> Q x (log (AccMemo i) st) ->
  wp (rd1 tbl i) Q st.
Proof.
  intros E HQ. exists x, (log (AccMemo i) st).
  unfold rd1. rewrite E. auto.
Qed.

Lemma wp_for_each {A} (I : state -> Prop) (step : A -> Z -> A)
      (vs : list Z) (body : Z -> A -> M A) :
  (forall v acc st, In v vs -> I st ->
     wp (body v acc) (fun a st' => a = step acc v /\ I st') st) ->
  forall acc st, I st ->
    wp (for_each vs body acc)
       (fun a st' => a = fold_left step vs acc /\ I st') st.
Proof.
  induction vs as [|v vs IH]; intros Hbody acc st HI; simpl.
  - apply wp_ret. auto.
  - apply wp_bind. eapply wp_mono.
    + apply Hbody; [now left | exact HI].
    + intros a st' [-> HI']. apply IH; [|exact HI'].
      intros v' acc' st'' Hin. apply Hbody. now right.
Qed.

Lemma card_values_range (v : Z) : In v card_values <-> 1 <= v <= 10.
Proof.
  unfold card_values, MAX_CARD. rewrite <- list_elem_of_In, elem_of_seqZ. lia.
Qed.

(** ** The reference functions do not depend on their fuel *)

Lemma fold_cards_ext {A} (f g : A -> Z -> A) (a : A) :
  (forall acc v, 1 <= v <= 10 -> f acc v = g acc v) ->
  fold_left f card_values a = fold_left g card_values a.
Proof.
  intros H.
  assert (G : forall vs acc, (forall v, In v vs -> 1 <= v <= 10) ->
                             fold_left f vs acc = fold_left g vs acc).
  { induction vs as [|v vs IH]; intros acc Hvs; simpl; [reflexivity|].
    rewrite H by (apply Hvs; now left).
    apply IH. intros v' Hin. apply Hvs. now right. }
  apply G. intros v Hin. now apply card_values_range.
Qed.

Lemma mean3_ext (f g : Z -> outcome) :
  (forall v, 1 <= v <= 10 -> f v = g v) -> mean3 f = mean3 g.
Proof.
  intros H. unfold mean3, sum3.
  rewrite (fold_cards_ext (fun acc v => add3 acc (f v))
                          (fun acc v => add3 acc (g v))); [reflexivity|].
  intros acc v Hv. now rewrite H.
Qed.

Lemma mean2_ext (f g : Z -> float * float) :
  (forall v, 1 <= v <= 10 -> f v = g v) -> mean2 f = mean2 g.
Proof.
  intros H. unfold mean2, sum2.
  rewrite (fold_cards_ext (fun acc v => add2 acc (f v))
                          (fun acc v => add2 acc (g v))); [reflexivity|].
  intros acc v Hv. now rewrite H.
Qed.

Lemma dealer_rec_S (n : nat) (s pt : Z) :
  dealer_rec (S n) s pt =
  if s >? TARGET then bust_outcome
  else if s >=? 17 then stop_outcome s pt
  else mean3 (fun v => dealer_rec n (s + v) pt).
Proof. reflexivity. Qed.

Lemma dealer_rec_fuel (n : nat) :
  forall s pt, 17 - s <= Z.of_nat n ->
               dealer_rec (S n) s pt = dealer_rec n s pt.
Proof.
  induction n as [|n IH]; intros s pt Hn.
  - rewrite dealer_rec_S. simpl.
    destruct (s >? TARGET); [reflexivity|].
    destruct (s >=? 17) eqn:E; [reflexivity | lia].
  - rewrite (dealer_rec_S (S n)), (dealer_rec_S n).
    destruct (s >? TARGET); [reflexivity|].
    destruct (s >=? 17); [reflexivity|].
    apply mean3_ext. intros v Hv. apply IH. lia.
Qed.

Lemma dealer_value_bust (s pt : Z) :
  TARGET < s -> dealer_value s pt = bust_outcome.
Proof.
  intros H. unfold dealer_value. rewrite dealer_rec_S.
  destruct (s >? TARGET) eqn:E; [reflexivity | lia].
Qed.

Lemma dealer_value_stop (s pt : Z) :
  17 <= s <= TARGET -> dealer_value s pt = stop_outcome s pt.
Proof.
  intros H. unfold dealer_value. rewrite dealer_rec_S.
  destruct (s >? TARGET) eqn:E; [lia|].
  destruct (s >=? 17) eqn:E'; [reflexivity | lia].
Qed.

Lemma dealer_value_draw (s pt : Z) :
  0 <= s < 17 ->
  dealer_value s pt = mean3 (fun v => dealer_value (s + v) pt).
Proof.
  intros H. unfold dealer_value. rewrite (dealer_rec_S 16).
  destruct (s >? TARGET) eqn:E; [unfold TARGET in E; lia|].
  destruct (s >=? 17) eqn:E'; [lia|].
  apply mean3_ext. intros v Hv. symmetry. apply dealer_rec_fuel. lia.
Qed.

(** ** Writing one cell of the dealer tables *)

Lemma entry_Some (st : state) (s pt : Z) (b l e : float) :
  entry st s pt = Some (b, l, e) <->
  at2 (dealerBust st) s pt = Some b /\ at2 (dealerLess st) s pt = Some l /\
  at2 (dealerEqual st) s pt = Some e.
Proof.
  unfold entry.
  destruct (at2 (dealerBust st) s pt), (at2 (dealerLess st) s pt),
           (at2 (dealerEqual st) s pt); split;
    try (intros ?; discriminate); try (intros (? & ? & ?); discriminate).
  - intros [= -> -> ->]. auto.
  - intros ([= ->] & [= ->] & [= ->]). reflexivity.
Qed.

Lemma wp_wrBust (i j : Z) (x y : float) (Q : unit -> state -> Prop)
      (st : state) :
  at2 (dealerBust st) i j = Some y ->
  Q tt (mkState (set2 (dealerBust st) i j x) (dealerLess st) (dealerEqual st)
                (memoWin st) (memoLoss st) (AccDealer i j :: trace st)) ->
  wp (wrBust i j x) Q st.
Proof.
  intros E HQ. unfold wp, wrBust. rewrite E. eauto.
Qed.

Lemma wp_wrLess (i j : Z) (x y : float) (Q : unit -> state -> Prop)
      (st : state) :
  at2 (dealerLess st) i j = Some y ->
  Q tt (mkState (dealerBust st) (set2 (dealerLess st) i j x) (dealerEqual st)
                (memoWin st) (memoLoss st) (AccDealer i j :: trace st)) ->
  wp (wrLess i j x) Q st.
Proof.
  intros E HQ. unfold wp, wrLess. rewrite E. eauto.
Qed.

Lemma wp_wrEqual (i j : Z) (x y : float) (Q : unit -> state -> Prop)
      (st : state) :
  at2 (dealerEqual st) i j = Some y ->
  Q tt (mkState (dealerBust st) (dealerLess st) (set2 (dealerEqual st) i j x)
                (memoWin st) (memoLoss st) (AccDealer i j :: trace st)) ->
  wp (wrEqual i j x) Q st.
Proof.
  intros E HQ. unfold wp, wrEqual. rewrite E. eauto.
Qed.

Lemma wp_write3 (st : state) (s pt : Z) (b l e : float)
      (Q : unit -> state -> Prop) :
  0 <= s <= MAX_SUM -> 0 <= pt <= TARGET -> wf_dealer st ->
  (b, l, e) = dealer_value s pt ->
  (forall st', wf_dealer st' -> memoWin st' = memoWin st ->
               memoLoss st' = memoLoss st ->
               entry st' s pt = Some (b, l, e) -> Q tt st') ->
  wp (let* _ := wrBust s pt b in
      let* _ := wrLess s pt l in
      wrEqual s pt e) Q st.
Proof.
  intros Hs Hpt Hwf Hval HQ.
  destruct (Hwf s pt Hs Hpt) as ([[b0 l0] e0] & E0 & _).
  apply entry_Some in E0. destruct E0 as (Eb & El & Ee).
  apply wp_bind. eapply wp_wrBust; [exact Eb|].
  apply wp_bind. eapply wp_wrLess; [exact El|].
  eapply wp_wrEqual; [exact Ee|].
  apply HQ; try reflexivity.
  - intros s' pt' Hs' Hpt'.
    destruct (Hwf s' pt' Hs' Hpt') as ([[b1 l1] e1] & E1 & Hset).
    apply entry_Some in E1. destruct E1 as (Eb1 & El1 & Ee1).
    destruct (Z.eq_dec s s') as [<-|Hne].
    + destruct (Z.eq_dec pt pt') as [<-|Hne'].
      * exists (b, l, e). split; [|intros _; exact Hval].
        apply entry_Some. simpl.
        split; [|split]; eapply at2_set2_eq; eassumption.
      * exists (b1, l1, e1). split; [|exact Hset].
        apply entry_Some. simpl.
        rewrite !at2_set2_ne by (try lia; right; exact Hne'). auto.
    + exists (b1, l1, e1). split; [|exact Hset].
      apply entry_Some. simpl.
      rewrite !at2_set2_ne by (try lia; left; exact Hne). auto.
  - apply entry_Some. simpl.
    split; [|split]; eapply at2_set2_eq; eassumption.
Qed.

(** ** [computeDealer] fills cells with the value of the recursion *)

Lemma computeDealer_S (fuel' : nat) (s pt : Z) :
  computeDealer (S fuel') s pt =
    if s >? MAX_SUM then ret tt else
    let* b0 := rd2 dealerBust s pt in
    if fge b0 unset then ret tt else
    if s >? TARGET then
      let* _ := wrBust s pt 1%float in
      let* _ := wrLess s pt 0%float in
      wrEqual s pt 0%float
    else if s >=? 17 then
      let* _ := wrBust s pt 0%float in
      let* _ := wrLess s pt (if s <? pt then 1%float else 0%float) in
      wrEqual s pt (if s =? pt then 1%float else 0%float)
    else
      let* (accBust, accLess, accEqual) :=
        for_cards (fun v '(accBust, accLess, accEqual) =>
          let ns := s + v in
          if ns >? MAX_SUM then
            ret ((accBust + 1)%float, accLess, accEqual)
          else
            let* c := rd2 dealerBust ns pt in
            let* _ := (if flt c unset then computeDealer fuel' ns pt
                       else ret tt) in
            let* b := rd2 dealerBust ns pt in
            let* l := rd2 dealerLess ns pt in
            let* e := rd2 dealerEqual ns pt in
            ret ((accBust + b)%float, (accLess + l)%float,
                 (accEqual + e)%float))
          (0%float, 0%float, 0%float) in
      let* _ := wrBust s pt (accBust / ten)%float in
      let* _ := wrLess s pt (accLess / ten)%float in
      wrEqual s pt (accEqual / ten)%float.
Proof. reflexivity. Qed.

Lemma wf_entry (st : state) (s pt : Z) :
  wf_dealer st -> 0 <= s <= MAX_SUM -> 0 <= pt <= TARGET ->
  exists b l e,
    at2 (dealerBust st) s pt = Some b /\ at2 (dealerLess st) s pt = Some l /\
    at2 (dealerEqual st) s pt = Some e /\
    (is_set b -> (b, l, e) = dealer_value s pt).
Proof.
  intros Hwf Hs Hpt. destruct (Hwf s pt Hs Hpt) as ([[b l] e] & E & H).
  apply entry_Some in E. destruct E as (Eb & El & Ee).
  exists b, l, e. auto.
Qed.

Lemma computeDealer_sound (fuel : nat) :
  forall s pt st,
    wf_dealer st -> 0 <= s -> 0 <= pt <= TARGET ->
    (0 < fuel)%nat -> 17 - s < Z.of_nat fuel ->
    wp (computeDealer fuel s pt) (fun _ st' => dealer_post st s pt st') st.
Proof.
  induction fuel as [|fuel IH]; intros s pt st Hwf Hs Hpt Hpos Hfuel;
    [lia|].
  rewrite computeDealer_S.
  destruct (s >? MAX_SUM) eqn:Emax.
  { apply wp_ret. unfold dealer_post. repeat split; auto. lia. }
  assert (Hs' : 0 <= s <= MAX_SUM) by lia.
  destruct (wf_entry st s pt Hwf Hs' Hpt) as (b0 & l0 & e0 & Eb & El & Ee & Hset).
  apply wp_bind. eapply wp_rd2; [exact Eb|].
  destruct (fge b0 unset) eqn:Efilled.
  { apply wp_ret. unfold dealer_post. repeat split; auto.
    intros _. rewrite <- Hset by (now left). now apply entry_Some. }
  destruct (s >? TARGET) eqn:Etarget.
  { apply wp_write3; auto.
    - rewrite dealer_value_bust by lia. reflexivity.
    - intros st' Hwf' Hw Hl He. unfold dealer_post. repeat split; auto.
      intros _. rewrite He, dealer_value_bust by lia. reflexivity. }
  destruct (s >=? 17) eqn:Estop.
  { apply wp_write3; auto.
    - rewrite dealer_value_stop by lia. reflexivity.
    - intros st' Hwf' Hw Hl He. unfold dealer_post. repeat split; auto.
      intros _. rewrite He, dealer_value_stop by lia. reflexivity. }
  apply wp_bind.
  set (I := fun st' : state =>
              wf_dealer st' /\ memoWin st' = memoWin st /\
              memoLoss st' = memoLoss st).
  eapply wp_mono.
  { unfold for_cards.
    apply (wp_for_each I (fun acc v => add3 acc (dealer_value (s + v) pt))).
    - intros v [[accB accL] accE] st1 Hv (Hwf1 & Hw1 & Hl1).
      apply card_values_range in Hv. cbv zeta.
      destruct (s + v >? MAX_SUM) eqn:Ens; [unfold MAX_SUM, TARGET, MAX_CARD in Ens; lia|].
      assert (Hns : 0 <= s + v <= MAX_SUM) by lia.
      destruct (wf_entry st1 (s + v) pt Hwf1 Hns Hpt)
        as (c & cl & ce & Ec & Ecl & Ece & Hcset).
      apply wp_bind. eapply wp_rd2; [exact Ec|].
      apply wp_bind.
      eapply (wp_mono _ (fun _ st2 => I st2 /\
                entry st2 (s + v) pt = Some (dealer_value (s + v) pt))).
      + destruct (flt c unset) eqn:Eflt.
        * eapply wp_mono.
          { apply IH; [exact Hwf1 | lia | exact Hpt | lia | lia]. }
          intros _ st2 (Hwf2 & Hw2 & Hl2 & Hent). simpl in Hw2, Hl2.
          unfold I. repeat split; auto; try congruence.
          apply Hent. lia.
        * apply wp_ret. unfold I. repeat split; auto.
          rewrite <- Hcset by (now right). now apply entry_Some.
      + intros _ st2 ((Hwf2 & Hw2 & Hl2) & Hent).
        destruct (dealer_value (s + v) pt) as [[b l] e] eqn:Edv.
        apply entry_Some in Hent. destruct Hent as (Hb & Hl & He).
        apply wp_bind. eapply wp_rd2; [exact Hb|].
        apply wp_bind. eapply wp_rd2; [exact Hl|].
        apply wp_bind. eapply wp_rd2; [exact He|].
        apply wp_ret. split; [reflexivity|].
        unfold I. repeat split; auto.
    - unfold I. auto. }
  intros acc st1 (Hacc & Hwf1 & Hw1 & Hl1). cbv beta.
  assert (Hmean : dealer_value s pt =
                  let '(b, l, e) := acc in
                  ((b / ten)%float, (l / ten)%float, (e / ten)%float)).
  { rewrite dealer_value_draw by lia. unfold mean3, sum3. rewrite <- Hacc.
    reflexivity. }
  destruct acc as [[accB accL] accE].
  apply wp_write3; auto.
  intros st' Hwf' Hw Hl He. unfold dealer_post. repeat split; auto;
    try congruence.
  intros _. rewrite He, Hmean. reflexivity.
Qed.

Ltac consts := unfold MAX_SUM, TARGET, MAX_CARD in *; lia.

(** ** [standProbs] returns the value of its formula *)

Lemma standProbs_bust (fuel : nat) (dealer_upcard s : Z) (st : state) :
  TARGET < s -> standProbs fuel dealer_upcard s st = Ok ((0%float, 1%float), st).
Proof.
  intros H. unfold standProbs.
  destruct (s >? TARGET) eqn:E; [reflexivity | lia].
Qed.

Lemma standProbs_sound (fuel : nat) (dealer_upcard s : Z) (st : state) :
  wf_dealer st -> 1 <= dealer_upcard <= 10 -> 0 <= s ->
  (18 <= fuel)%nat ->
  wp (standProbs fuel dealer_upcard s)
     (fun r st' => r = stand_value dealer_upcard s /\ wf_dealer st' /\
                   memoWin st' = memoWin st /\ memoLoss st' = memoLoss st) st.
Proof.
  intros Hwf Hdu Hs Hfuel. unfold standProbs, stand_value.
  destruct (s >? TARGET) eqn:Etarget.
  { apply wp_ret. auto. }
  assert (Hpt : 0 <= s <= TARGET) by lia.
  apply wp_bind.
  set (I := fun st' : state =>
              wf_dealer st' /\ memoWin st' = memoWin st /\
              memoLoss st' = memoLoss st).
  eapply wp_mono.
  { unfold for_cards.
    apply (wp_for_each I
             (fun acc hole =>
                add2 acc (stand_term (dealer_value (dealer_upcard + hole) s)))).
    - intros hole [win loss] st1 Hv (Hwf1 & Hw1 & Hl1).
      apply card_values_range in Hv. cbv zeta.
      destruct (dealer_upcard + hole >? MAX_SUM) eqn:Ens; [consts|].
      assert (Hns : 0 <= dealer_upcard + hole <= MAX_SUM) by consts.
      destruct (wf_entry st1 (dealer_upcard + hole) s Hwf1 Hns Hpt)
        as (c & cl & ce & Ec & Ecl & Ece & Hcset).
      apply wp_bind. eapply wp_rd2; [exact Ec|].
      apply wp_bind.
      eapply (wp_mono _ (fun _ st2 => I st2 /\
                entry st2 (dealer_upcard + hole) s =
                Some (dealer_value (dealer_upcard + hole) s))).
      + destruct (flt c unset) eqn:Eflt.
        * eapply wp_mono.
          { apply computeDealer_sound; [exact Hwf1 | lia | exact Hpt | lia | lia]. }
          intros _ st2 (Hwf2 & Hw2 & Hl2 & Hent). simpl in Hw2, Hl2.
          unfold I. repeat split; auto; try congruence.
          apply Hent. lia.
        * apply wp_ret. unfold I. repeat split; auto.
          rewrite <- Hcset by (now right). now apply entry_Some.
      + intros _ st2 ((Hwf2 & Hw2 & Hl2) & Hent).
        destruct (dealer_value (dealer_upcard + hole) s) as [[b l] e] eqn:Edv.
        apply entry_Some in Hent. destruct Hent as (Hb & Hl & He).
        apply wp_bind. eapply wp_rd2; [exact Hb|].
        apply wp_bind. eapply wp_rd2; [exact Hb|].
        apply wp_bind. eapply wp_rd2; [exact Hl|].
        apply wp_bind. eapply wp_rd2; [exact He|].
        apply wp_bind. eapply wp_rd2; [exact Hl|].
        apply wp_ret. split; [reflexivity|].
        unfold I. repeat split; auto.
    - unfold I. auto. }
  intros acc st1 (Hacc & Hwf1 & Hw1 & Hl1). cbv beta.
  unfold mean2, sum2. rewrite <- Hacc. destruct acc as [win loss].
  apply wp_ret. auto.
Qed.

(** ** [optimal] returns the value of its recursion *)

Lemma optimal_rec_S (n : nat) (dealer_upcard s : Z) :
  optimal_rec (S n) dealer_upcard s =
  if s >? TARGET then (0%float, 1%float)
  else choose (stand_value dealer_upcard s)
              (mean2 (fun v => optimal_rec n dealer_upcard (s + v))).
Proof. reflexivity. Qed.

Lemma optimal_rec_fuel (dealer_upcard : Z) (n : nat) :
  forall s, 22 - s <= Z.of_nat n ->
            optimal_rec (S n) dealer_upcard s = optimal_rec n dealer_upcard s.
Proof.
  induction n as [|n IH]; intros s Hn.
  - rewrite optimal_rec_S. simpl.
    destruct (s >? TARGET) eqn:E; [reflexivity | consts].
  - rewrite (optimal_rec_S (S n)), (optimal_rec_S n).
    destruct (s >? TARGET); [reflexivity|].
    apply (f_equal (choose (stand_value dealer_upcard s))).
    apply mean2_ext. intros v Hv. apply IH. lia.
Qed.

Lemma optimal_value_bust (dealer_upcard s : Z) :
  TARGET < s -> optimal_value dealer_upcard s = (0%float, 1%float).
Proof.
  intros H. unfold optimal_value. rewrite optimal_rec_S.
  destruct (s >? TARGET) eqn:E; [reflexivity | lia].
Qed.

Lemma optimal_value_choose (dealer_upcard s : Z) :
  0 <= s <= TARGET ->
  optimal_value dealer_upcard s =
  choose (stand_value dealer_upcard s) (hit_value dealer_upcard s).
Proof.
  intros H. unfold hit_value, optimal_value.
  rewrite (optimal_rec_S 21 dealer_upcard s).
  destruct (s >? TARGET) eqn:E; [lia|].
  apply (f_equal (choose (stand_value dealer_upcard s))).
  apply mean2_ext. intros v Hv. symmetry.
  apply (optimal_rec_fuel dealer_upcard 21). lia.
Qed.

Lemma wp_wrWin (i : Z) (x y : float) (Q : unit -> state -> Prop)
      (st : state) :
  at1 (memoWin st) i = Some y ->
  Q tt (mkState (dealerBust st) (dealerLess st) (dealerEqual st)
                (set1 (memoWin st) i x) (memoLoss st) (AccMemo i :: trace st)) ->
  wp (wrWin i x) Q st.
Proof.
  intros E HQ. unfold wp, wrWin. rewrite E. eauto.
Qed.

Lemma wp_wrLoss (i : Z) (x y : float) (Q : unit -> state -> Prop)
      (st : state) :
  at1 (memoLoss st) i = Some y ->
  Q tt (mkState (dealerBust st) (dealerLess st) (dealerEqual st)
                (memoWin st) (set1 (memoLoss st) i x) (AccMemo i :: trace st)) ->
  wp (wrLoss i x) Q st.
Proof.
  intros E HQ. unfold wp, wrLoss. rewrite E. eauto.
Qed.

Lemma wp_write2 (dealer_upcard : Z) (st : state) (s : Z) (w l : float)
      (Q : unit -> state -> Prop) :
  0 <= s <= TARGET -> wf dealer_upcard st ->
  (w, l) = optimal_value dealer_upcard s ->
  (forall st', wf dealer_upcard st' -> Q tt st') ->
  wp (let* _ := wrWin s w in wrLoss s l) Q st.
Proof.
  intros Hs [Hwfd Hwfm] Hval HQ.
  destruct (Hwfm s Hs) as (w0 & l0 & Ew & El & _).
  apply wp_bind. eapply wp_wrWin; [exact Ew|].
  eapply wp_wrLoss; [exact El|].
  apply HQ. split; [exact Hwfd|].
  intros s' Hs'. simpl.
  destruct (Hwfm s' Hs') as (w1 & l1 & Ew1 & El1 & Hset).
  destruct (Z.eq_dec s s') as [<-|Hne].
  - exists w, l. split; [|split].
    + eapply at1_set1_eq, Ew.
    + eapply at1_set1_eq, El.
    + intros _. exact Hval.
  - exists w1, l1. rewrite !at1_set1_ne by lia. auto.
Qed.

Lemma optimal_S (fuel' : nat) (dealer_upcard s : Z) :
  optimal (S fuel') dealer_upcard s =
    if s >? TARGET then ret (0%float, 1%float) else
    let* cached :=
      (if s <=? MAX_SUM then
         let* w := rd1 memoWin s in
         if fge w unset then
           let* w' := rd1 memoWin s in
           let* l' := rd1 memoLoss s in
           ret (Some (w', l'))
         else ret None
       else ret None) in
    match cached with
    | Some r => ret r
    | None =>
      let* stand := standProbs (S fuel') dealer_upcard s in
      let* (hitW, hitL) :=
        for_cards (fun v '(hitW, hitL) =>
          let ns := s + v in
          let* res := optimal fuel' dealer_upcard ns in
          ret ((hitW + fst res)%float, (hitL + snd res)%float))
          (0%float, 0%float) in
      let hitW := (hitW / ten)%float in
      let hitL := (hitL / ten)%float in
      if fge (fst stand) hitW then
        let* _ := (if s <=? MAX_SUM then
                     let* _ := wrWin s (fst stand) in wrLoss s (snd stand)
                   else ret tt) in
        ret (fst stand, snd stand)
      else
        let* _ := (if s <=? MAX_SUM then
                     let* _ := wrWin s hitW in wrLoss s hitL
                   else ret tt) in
        ret (hitW, hitL)
    end.
Proof. reflexivity. Qed.

Lemma optimal_bust (fuel : nat) (dealer_upcard s : Z) (st : state) :
  (0 < fuel)%nat -> TARGET < s ->
  optimal fuel dealer_upcard s st = Ok ((0%float, 1%float), st).
Proof.
  intros Hf H. destruct fuel as [|fuel']; [lia|].
  rewrite optimal_S. destruct (s >? TARGET) eqn:E; [reflexivity | lia].
Qed.

Lemma optimal_sound (fuel : nat) :
  forall dealer_upcard s st,
    wf dealer_upcard st -> 1 <= dealer_upcard <= 10 -> 0 <= s ->
    (0 < fuel)%nat -> 40 - s < Z.of_nat fuel ->
    wp (optimal fuel dealer_upcard s)
       (fun r st' => r = optimal_value dealer_upcard s /\
                     wf dealer_upcard st') st.
Proof.
  induction fuel as [|fuel IH]; intros du s st Hwf Hdu Hs Hpos Hfuel; [lia|].
  rewrite optimal_S.
  destruct (s >? TARGET) eqn:Etarget.
  { apply wp_ret. rewrite optimal_value_bust by lia. auto. }
  assert (Hpt : 0 <= s <= TARGET) by lia.
  destruct (s <=? MAX_SUM) eqn:Emax; [|consts].
  destruct Hwf as [Hwfd Hwfm].
  destruct (Hwfm s Hpt) as (w0 & l0 & Ew & El & Hset).
  apply wp_bind. apply wp_bind. eapply wp_rd1; [exact Ew|].
  destruct (fge w0 unset) eqn:Efilled.
  { apply wp_bind. eapply wp_rd1; [exact Ew|].
    apply wp_bind. eapply wp_rd1; [exact El|].
    apply wp_ret. apply wp_ret. split; [now apply Hset | now split]. }
  apply wp_ret. apply wp_bind.
  eapply wp_mono.
  { apply standProbs_sound; [exact Hwfd | exact Hdu | lia | consts]. }
  intros stand st1 (-> & Hwfd1 & Hw1 & Hl1). simpl in Hw1, Hl1.
  assert (Hwf1 : wf du st1).
  { split; [exact Hwfd1|]. unfold wf_memo. rewrite Hw1, Hl1. exact Hwfm. }
  apply wp_bind.
  eapply wp_mono.
  { unfold for_cards.
    apply (wp_for_each (wf du)
             (fun acc v => add2 acc (optimal_value du (s + v)))).
    - intros v [hitW hitL] st2 Hv Hwf2.
      apply card_values_range in Hv. cbv zeta.
      apply wp_bind. eapply wp_mono.
      { apply IH; [exact Hwf2 | exact Hdu | lia | consts | lia]. }
      intros res st3 [-> Hwf3]. apply wp_ret. split; [reflexivity | exact Hwf3].
    - exact Hwf1. }
  intros acc st2 (Hacc & Hwf2). cbv beta.
  assert (Hhit : hit_value du s =
                 ((fst acc / ten)%float, (snd acc / ten)%float)).
  { unfold hit_value, mean2, sum2. rewrite <- Hacc. now destruct acc. }
  destruct acc as [hitW hitL]. cbv zeta. simpl fst in Hhit. simpl snd in Hhit.
  assert (Hopt := optimal_value_choose du s Hpt).
  rewrite Hhit in Hopt. unfold choose in Hopt. simpl fst in Hopt.
  destruct (fge (fst (stand_value du s)) (hitW / ten)%float) eqn:Ech.
  - apply wp_bind. apply (wp_write2 du); auto.
    + rewrite Hopt. now destruct (stand_value du s).
    + intros st' Hwf'. apply wp_ret. split; [|exact Hwf'].
      rewrite Hopt. now destruct (stand_value du s).
  - apply wp_bind. apply (wp_write2 du); auto.
    intros st' Hwf'. apply wp_ret. auto.
Qed.

(** ** The freshly allocated tables satisfy the invariant *)

Lemma unset_cell_not_set : ~ is_set (-1)%float.
Proof. intros [H|H]; vm_compute in H; discriminate. Qed.

Lemma wf_dealer_init : wf_dealer init_state.
Proof.
  intros s pt Hs Hpt. exists ((-1)%float, (-1)%float, (-1)%float).
  split.
  - apply entry_Some. simpl. repeat split; apply at2_vec2; consts.
  - intros H. now apply unset_cell_not_set in H.
Qed.

Lemma wf_init (dealer_upcard : Z) : wf dealer_upcard init_state.
Proof.
  split; [apply wf_dealer_init|].
  intros s Hs. exists (-1)%float, (-1)%float. simpl.
  repeat split; try (apply at1_vec; consts).
  intros H. vm_compute in H. discriminate.
Qed.

(** ** The composite computations *)

Lemma dealerOutcome_sound (fuel : nat) (s pt : Z) (st : state) :
  wf_dealer st -> 0 <= s <= MAX_SUM -> 0 <= pt <= TARGET ->
  (18 <= fuel)%nat ->
  wp (dealerOutcome fuel s pt)
     (fun o st' => o = dealer_value s pt /\ wf_dealer st' /\
                   memoWin st' = memoWin st /\ memoLoss st' = memoLoss st) st.
Proof.
  intros Hwf Hs Hpt Hfuel. unfold dealerOutcome.
  apply wp_bind. eapply wp_mono.
  { apply computeDealer_sound; [exact Hwf | lia | exact Hpt | lia | lia]. }
  intros _ st1 (Hwf1 & Hw1 & Hl1 & Hent).
  specialize (Hent (proj2 Hs)).
  destruct (dealer_value s pt) as [[b l] e].
  apply entry_Some in Hent. destruct Hent as (Hb & Hl & He).
  apply wp_bind. eapply wp_rd2; [exact Hb|].
  apply wp_bind. eapply wp_rd2; [exact Hl|].
  apply wp_bind. eapply wp_rd2; [exact He|].
  apply wp_ret. auto.
Qed.

Lemma hitImmediate_sound (fuel : nat) (hand_score dealer_upcard : Z)
      (st : state) :
  wf dealer_upcard st -> 1 <= dealer_upcard <= 10 -> 0 <= hand_score ->
  (FUEL <= fuel)%nat ->
  wp (hitImmediate fuel hand_score dealer_upcard)
     (fun r st' => r = hit_value dealer_upcard hand_score /\
                   wf dealer_upcard st') st.
Proof.
  intros Hwf Hdu Hs Hfuel. unfold FUEL in Hfuel. unfold hitImmediate.
  apply wp_bind. eapply wp_mono.
  { unfold for_cards.
    apply (wp_for_each (wf dealer_upcard)
             (fun acc v => add2 acc (optimal_value dealer_upcard
                                                   (hand_score + v)))).
    - intros v [hitW hitL] st2 Hv Hwf2.
      apply card_values_range in Hv.
      apply wp_bind. eapply wp_mono.
      { apply optimal_sound; [exact Hwf2 | exact Hdu | lia | lia | lia]. }
      intros res st3 [-> Hwf3]. apply wp_ret. split; [reflexivity | exact Hwf3].
    - exact Hwf. }
  intros acc st2 (Hacc & Hwf2). cbv beta.
  unfold hit_value, mean2, sum2. rewrite <- Hacc. destruct acc as [hitW hitL].
  apply wp_ret. auto.
Qed.

Lemma computeOptions_body_sound (fuel : nat) (hand_score dealer_upcard : Z)
      (st : state) :
  wf dealer_upcard st -> 1 <= dealer_upcard <= 10 -> 0 <= hand_score ->
  (FUEL <= fuel)%nat ->
  wp (computeOptions_body fuel hand_score dealer_upcard)
     (fun out st' => out = options_value hand_score dealer_upcard /\
                     wf dealer_upcard st') st.
Proof.
  intros Hwf Hdu Hs Hfuel. unfold computeOptions_body.
  apply wp_bind. eapply wp_mono.
  { apply optimal_sound; [exact Hwf | exact Hdu | exact Hs | | ];
      unfold FUEL in Hfuel; lia. }
  intros opt st1 [-> Hwf1]. cbv zeta.
  apply wp_bind. eapply wp_mono.
  { apply standProbs_sound; [apply Hwf1 | exact Hdu | exact Hs |];
      unfold FUEL in Hfuel; lia. }
  intros stand st2 (-> & Hwfd2 & Hw2 & Hl2).
  assert (Hwf2 : wf dealer_upcard st2).
  { split; [exact Hwfd2|]. unfold wf_memo. rewrite Hw2, Hl2. apply Hwf1. }
  apply wp_bind. eapply wp_mono.
  { apply hitImmediate_sound; [exact Hwf2 | exact Hdu | exact Hs | exact Hfuel]. }
  intros hit st3 [-> Hwf3].
  apply wp_ret. split; [reflexivity | exact Hwf3].
Qed.

Lemma computeOptions_sound (fuel : nat) (hand_score dealer_upcard : Z) :
  1 <= dealer_upcard <= 10 -> 0 <= hand_score -> (FUEL <= fuel)%nat ->
  computeOptions fuel hand_score dealer_upcard =
  Ok (options_value hand_score dealer_upcard).
Proof.
  intros Hdu Hs Hfuel. unfold computeOptions, computeOptions_run.
  destruct ((dealer_upcard <? 1) || (dealer_upcard >? 10)) eqn:E; [lia|].
  destruct (computeOptions_body_sound fuel hand_score dealer_upcard init_state
              (wf_init dealer_upcard) Hdu Hs Hfuel)
    as (out & st' & Erun & -> & _).
  rewrite Erun. reflexivity.
Qed.

(** ** The tables hold the values of the reference functions *)

Lemma in_grid (hs du : Z) :
  0 <= hs <= 21 -> 1 <= du <= 10 -> In (hs, du) grid.
Proof.
  intros Hhs Hdu. unfold grid. apply in_flat_map. exists hs. split.
  - apply list_elem_of_In, elem_of_seqZ. lia.
  - apply in_map. apply list_elem_of_In, elem_of_seqZ. lia.
Qed.

Lemma in_dealer_grid (s pt : Z) :
  0 <= s <= 31 -> 0 <= pt <= 21 -> In (s, pt) dealer_grid.
Proof.
  intros Hs Hpt. unfold dealer_grid. apply in_flat_map. exists s. split.
  - apply list_elem_of_In, elem_of_seqZ. lia.
  - apply in_map. apply list_elem_of_In, elem_of_seqZ. lia.
Qed.

Lemma options_table_eq : options_table = map run_options grid.
Proof. vm_compute. reflexivity. Qed.

Lemma dealer_table_eq : dealer_table = map run_dealer dealer_grid.
Proof. vm_compute. reflexivity. Qed.

Lemma check_options_sound (P : Z -> Z -> Options -> bool) :
  check_options P = true ->
  forall hs du, 0 <= hs <= 21 -> 1 <= du <= 10 ->
                P hs du (options_value hs du) = true.
Proof.
  unfold check_options. rewrite options_table_eq, forallb_forall.
  intros H hs du Hhs Hdu.
  specialize (H (run_options (hs, du)) (in_map _ _ _ (in_grid hs du Hhs Hdu))).
  unfold run_options in H. simpl fst in H. simpl snd in H.
  rewrite computeOptions_sound in H by (auto; lia). exact H.
Qed.

Lemma eval_dealer_sound (s pt : Z) :
  0 <= s <= 31 -> 0 <= pt <= 21 -> eval_dealer s pt = Some (dealer_value s pt).
Proof.
  intros Hs Hpt. unfold eval_dealer.
  destruct (dealerOutcome_sound FUEL s pt init_state wf_dealer_init)
    as (o & st' & E & -> & _); try consts.
  - unfold FUEL. lia.
  - rewrite E. reflexivity.
Qed.

Lemma check_dealer_sound (P : Z -> Z -> outcome -> bool) :
  check_dealer P = true ->
  forall s pt, 0 <= s <= 31 -> 0 <= pt <= 21 ->
               P s pt (dealer_value s pt) = true.
Proof.
  unfold check_dealer. rewrite dealer_table_eq, forallb_forall.
  intros H s pt Hs Hpt.
  specialize (H (run_dealer (s, pt))
                (in_map _ _ _ (in_dealer_grid s pt Hs Hpt))).
  unfold run_dealer in H. simpl fst in H. simpl snd in H.
  rewrite eval_dealer_sound in H by assumption. exact H.
Qed.

(** ** More fuel never changes a result *)

Lemma le_run_refl {A} (m : M A) : le_run m m.
Proof. intros st r H. exact H. Qed.

Lemma le_run_bind {A B} (m1 m2 : M A) (k1 k2 : A -> M B) :
  le_run m1 m2 -> (forall a, le_run (k1 a) (k2 a)) ->
  le_run (bind m1 k1) (bind m2 k2).
Proof.
  intros Hm Hk st r. unfold bind.
  destruct (m1 st) as [[a st']| |] eqn:E; try discriminate.
  rewrite (Hm _ _ E). apply Hk.
Qed.

Lemma le_run_for_each {A} (vs : list Z) (b1 b2 : Z -> A -> M A) :
  (forall v acc, le_run (b1 v acc) (b2 v acc)) ->
  forall acc, le_run (for_each vs b1 acc) (for_each vs b2 acc).
Proof.
  intros Hb. induction vs as [|v vs IH]; intros acc; simpl.
  - apply le_run_refl.
  - apply le_run_bind; [apply Hb | exact IH].
Qed.

Ltac le_run_step :=
  match goal with
  | |- le_run (if ?c then _ else _) (if ?c then _ else _) => destruct c
  | |- le_run (match ?x with Some _ => _ | None => _ end) _ => destruct x
  | |- le_run (let '(_, _) := ?x in _) _ => destruct x
  | |- le_run (bind _ _) (bind _ _) => apply le_run_bind; [|intros ?]
  | |- le_run (for_cards _ _) (for_cards _ _) =>
      unfold for_cards; apply le_run_for_each; intros ? ?
  | |- le_run (ret _) (ret _) => apply le_run_refl
  | |- le_run (rd2 _ _ _) _ => apply le_run_refl
  | |- le_run (rd1 _ _) _ => apply le_run_refl
  | |- le_run (wrBust _ _ _) _ => apply le_run_refl
  | |- le_run (wrLess _ _ _) _ => apply le_run_refl
  | |- le_run (wrEqual _ _ _) _ => apply le_run_refl
  | |- le_run (wrWin _ _) _ => apply le_run_refl
  | |- le_run (wrLoss _ _) _ => apply le_run_refl
  end.

Lemma computeDealer_mono (n : nat) :
  forall m s pt, (n <= m)%nat ->
                 le_run (computeDealer n s pt) (computeDealer m s pt).
Proof.
  induction n as [|n IH]; intros m s pt Hnm.
  - intros st r H. discriminate.
  - destruct m as [|m]; [lia|]. rewrite !computeDealer_S.
    repeat first [apply IH; lia | le_run_step].
Qed.

Lemma standProbs_mono (n m : nat) (dealer_upcard s : Z) :
  (n <= m)%nat ->
  le_run (standProbs n dealer_upcard s) (standProbs m dealer_upcard s).
Proof.
  intros Hnm. unfold standProbs.
  repeat first [apply computeDealer_mono; lia | le_run_step].
Qed.

Lemma optimal_mono (n : nat) :
  forall m dealer_upcard s, (n <= m)%nat ->
    le_run (optimal n dealer_upcard s) (optimal m dealer_upcard s).
Proof.
  induction n as [|n IH]; intros m du s Hnm.
  - intros st r H. discriminate.
  - destruct m as [|m]; [lia|]. rewrite !optimal_S.
    repeat first [apply IH; lia | apply standProbs_mono; lia | le_run_step
                 | apply le_run_refl].
Qed.

Lemma computeOptions_body_mono (n m : nat) (hand_score dealer_upcard : Z) :
  (n <= m)%nat ->
  le_run (computeOptions_body n hand_score dealer_upcard)
         (computeOptions_body m hand_score dealer_upcard).
Proof.
  intros Hnm. unfold computeOptions_body, hitImmediate.
  repeat first [apply optimal_mono; lia | apply standProbs_mono; lia
               | le_run_step].
Qed.

Lemma computeOptions_run_mono (n m : nat) (hand_score dealer_upcard : Z)
      (r : Options * list access) :
  (n <= m)%nat ->
  computeOptions_run n hand_score dealer_upcard = Ok r ->
  computeOptions_run m hand_score dealer_upcard = Ok r.
Proof.
  intros Hnm. unfold computeOptions_run.
  destruct ((dealer_upcard <? 1) || (dealer_upcard >? 10)); [auto|].
  destruct (computeOptions_body n hand_score dealer_upcard init_state)
    as [[out st]| |] eqn:E; try discriminate.
  rewrite (computeOptions_body_mono n m _ _ Hnm _ _ E). auto.
Qed.

(** ** From weakest preconditions to returned values *)

Lemma wp_returns {A} (m : M A) (Q : state -> Prop) (st : state) (a : A) :
  wp m (fun r st' => r = a /\ Q st') st -> returns m st a.
Proof. intros (r & st' & E & -> & _). exists st'. exact E. Qed.

Lemma returns_dealerOutcome (fuel : nat) (s pt : Z) (st : state) :
  (FUEL <= fuel)%nat -> 0 <= s <= 31 -> 0 <= pt <= 21 -> wf_dealer st ->
  returns (dealerOutcome fuel s pt) st (dealer_value s pt).
Proof.
  intros Hf Hs Hpt Hwf. eapply wp_returns.
  apply dealerOutcome_sound; auto; unfold FUEL in Hf; consts.
Qed.

Lemma returns_standProbs (fuel : nat) (du s : Z) (st : state) :
  (FUEL <= fuel)%nat -> 1 <= du <= 10 -> 0 <= s -> wf_dealer st ->
  returns (standProbs fuel du s) st (stand_value du s).
Proof.
  intros Hf Hdu Hs Hwf. eapply wp_returns.
  apply standProbs_sound; auto; unfold FUEL in Hf; lia.
Qed.

Lemma returns_optimal (fuel : nat) (du s : Z) (st : state) :
  (FUEL <= fuel)%nat -> 1 <= du <= 10 -> 0 <= s -> wf du st ->
  returns (optimal fuel du s) st (optimal_value du s).
Proof.
  intros Hf Hdu Hs Hwf. eapply wp_returns.
  apply optimal_sound; auto; unfold FUEL in Hf; lia.
Qed.

(** ** Concrete runs *)

(** Standing on 20 against a 10: the player is favoured, and both the label
    and the policy stand. *)
Example run_20_against_10 :
  exists out,
    computeOptions FUEL 20 10 = Ok out /\
    fgt (standWin out) (standLoss out) = true /\
    bestAction out = "stand"%string /\
    optWin out = standWin out /\ optLoss out = standLoss out.
Proof.
  eexists. split; [vm_compute; reflexivity|].
  repeat split; vm_compute; reflexivity.
Qed.

(** 12 against a 6: the policy hits, and wins more often than standing. *)
Example run_12_against_6 :
  exists out,
    computeOptions FUEL 12 6 = Ok out /\
    fgt (optWin out) (standWin out) = true /\
    bestAction out = "hit"%string /\
    optWin out = hitWin out /\ optLoss out = hitLoss out.
Proof.
  eexists. split; [vm_compute; reflexivity|].
  repeat split; vm_compute; reflexivity.
Qed.

(** With too little fuel the model says so. *)
Example run_out_of_fuel : computeOptions 10 4 1 = OutOfFuel.
Proof. vm_compute. reflexivity. Qed.

(** In doubles the grouping of the loss term matters: at 17 against a 2,
    summing 1 - (bust + less + equal) as the source does, or
    ((1 - bust) - less) - equal, gives stand losses one unit in the last
    place apart. *)
Example loss_term_grouping_matters :
  exists (d : Z -> outcome) (out : Options),
    (forall h, 1 <= h <= 10 ->
       returns (dealerOutcome FUEL (2 + h) 17) init_state (d h)) /\
    computeOptions FUEL 17 2 = Ok out /\
    standLoss out =
      snd (mean2 (fun h => let '(b, l, e) := d h in
                           (0%float, (1 - (b + l + e))%float))) /\
    feq (standLoss out)
        (snd (mean2 (fun h => let '(b, l, e) := d h in
                              (0%float, (1 - b - l - e)%float)))) = false.
Proof.
  exists (fun h => match eval_dealer (2 + h) 17 with
                   | Some o => o
                   | None => bust_outcome
                   end).
  eexists. split; [|split; [vm_compute; reflexivity|]].
  - intros h Hh. rewrite eval_dealer_sound by lia.
    apply returns_dealerOutcome; [unfold FUEL; lia | lia | lia |].
    apply wf_dealer_init.
  - split; vm_compute; reflexivity.
Qed.

(** ** The statements of the design document *)

(** C1.  For a player total from 4 to 21 and an upcard from 1 to 10,
    [optimal] returns the pair of the action with the higher win
    probability: the pair of [standProbs] when standWin >= hitWin (ties go
    to standing), and otherwise the hit pair, which is the mean over
    v = 1..10 of what [optimal] returns for playerTotal + v.  The win
    returned is >= the win of either action, hence of the one not chosen. *)
Theorem C1_optimal_takes_higher_win (fuel : nat) (du pt : Z)
        (st st_s : state) :
  (FUEL <= fuel)%nat -> 4 <= pt <= 21 -> 1 <= du <= 10 ->
  wf du st -> wf du st_s ->
  exists (stand : float * float) (next : Z -> float * float),
    returns (standProbs fuel du pt) st_s stand /\
    (forall v st', 1 <= v <= 10 -> wf du st' ->
       returns (optimal fuel du (pt + v)) st' (next v)) /\
    let hit := mean2 next in
    let opt := if fge (fst stand) (fst hit) then stand else hit in
    returns (optimal fuel du pt) st opt /\
    fge (fst opt) (fst stand) = true /\ fge (fst opt) (fst hit) = true.
Proof.
  intros Hf Hpt Hdu Hwf Hwfs.
  exists (stand_value du pt), (fun v => optimal_value du (pt + v)).
  split; [apply returns_standProbs; auto; [lia | apply Hwfs]|].
  split; [intros v st' Hv Hwf'; apply returns_optimal; auto; lia|].
  cbv zeta.
  change (mean2 (fun v => optimal_value du (pt + v))) with (hit_value du pt).
  change (if fge (fst (stand_value du pt)) (fst (hit_value du pt))
          then stand_value du pt else hit_value du pt)
    with (choose (stand_value du pt) (hit_value du pt)).
  rewrite <- optimal_value_choose by consts.
  split; [apply returns_optimal; auto; lia|].
  assert (H := check_options_sound
                 (fun _ _ o => fge (optWin o) (standWin o) &&
                               fge (optWin o) (hitWin o))
                 ltac:(vm_compute; reflexivity) pt du ltac:(lia) Hdu).
  change (fge (fst (optimal_value du pt)) (fst (stand_value du pt)) &&
          fge (fst (optimal_value du pt)) (fst (hit_value du pt)) = true) in H.
  now apply andb_true_iff in H.
Qed.

Lemma C1_optimal_takes_higher_win_witness :
  (FUEL <= FUEL)%nat /\ 4 <= 12 <= 21 /\ 1 <= 6 <= 10 /\ wf 6 init_state /\
  exists (stand : float * float) (next : Z -> float * float),
    returns (standProbs FUEL 6 12) init_state stand /\
    (forall v st', 1 <= v <= 10 -> wf 6 st' ->
       returns (optimal FUEL 6 (12 + v)) st' (next v)) /\
    let hit := mean2 next in
    let opt := if fge (fst stand) (fst hit) then stand else hit in
    returns (optimal FUEL 6 12) init_state opt /\
    fge (fst opt) (fst stand) = true /\ fge (fst opt) (fst hit) = true.
Proof.
  assert (H1 : (FUEL <= FUEL)%nat) by lia.
  assert (H2 : 4 <= 12 <= 21) by lia.
  assert (H3 : 1 <= 6 <= 10) by lia.
  split; [exact H1|]. split; [exact H2|]. split; [exact H3|].
  split; [exact (wf_init 6)|].
  exact (C1_optimal_takes_higher_win FUEL 6 12 init_state init_state
           H1 H2 H3 (wf_init 6) (wf_init 6)).
Defined.

(** C2.  For a dealer total from 1 to 16 and a player total from 0 to 21,
    what [computeDealer] leaves in the tables for (dealerTotal, playerTotal)
    is the arithmetic mean, over the card values v = 1..10, of what it
    leaves for (dealerTotal + v, playerTotal); a next total above 21
    contributes the bust outcome (1, 0, 0).  This holds from every state of
    the tables that satisfies the invariant. *)
Theorem C2_dealer_draw_is_mean (fuel : nat) (s pt : Z) (st : state) :
  (FUEL <= fuel)%nat -> 1 <= s <= 16 -> 0 <= pt <= 21 -> wf_dealer st ->
  exists next : Z -> outcome,
    (forall v st', 1 <= v <= 10 -> wf_dealer st' ->
       returns (dealerOutcome fuel (s + v) pt) st' (next v) /\
       (21 < s + v -> next v = (1%float, 0%float, 0%float))) /\
    returns (dealerOutcome fuel s pt) st (mean3 next).
Proof.
  intros Hf Hs Hpt Hwf. exists (fun v => dealer_value (s + v) pt). split.
  - intros v st' Hv Hwf'. split.
    + apply returns_dealerOutcome; auto; lia.
    + intros Hb. now apply dealer_value_bust.
  - rewrite <- dealer_value_draw by lia.
    apply returns_dealerOutcome; auto; lia.
Qed.

Lemma C2_dealer_draw_is_mean_witness :
  (FUEL <= FUEL)%nat /\ 1 <= 12 <= 16 /\ 0 <= 18 <= 21 /\
  wf_dealer init_state /\
  exists next : Z -> outcome,
    (forall v st', 1 <= v <= 10 -> wf_dealer st' ->
       returns (dealerOutcome FUEL (12 + v) 18) st' (next v) /\
       (21 < 12 + v -> next v = (1%float, 0%float, 0%float))) /\
    returns (dealerOutcome FUEL 12 18) init_state (mean3 next).
Proof.
  assert (H1 : (FUEL <= FUEL)%nat) by lia.
  assert (H2 : 1 <= 12 <= 16) by lia.
  assert (H3 : 0 <= 18 <= 21) by lia.
  repeat split; try lia; try apply wf_dealer_init.
  exact (C2_dealer_draw_is_mean FUEL 12 18 init_state H1 H2 H3 wf_dealer_init).
Defined.

(** C3.  For a player total from 0 to 21 and an upcard from 1 to 10,
    [standProbs] returns one tenth of the sums, over the hole cards
    h = 1..10, of the win term bust + less and of the loss term
    1 - (bust + less + equal), where (bust, less, equal) is what
    [computeDealer] leaves in the tables for (upcard + h, playerTotal). *)
Theorem C3_stand_is_mean_over_hole_cards (fuel : nat) (du pt : Z)
        (st : state) :
  (FUEL <= fuel)%nat -> 0 <= pt <= 21 -> 1 <= du <= 10 -> wf_dealer st ->
  exists d : Z -> outcome,
    (forall h st', 1 <= h <= 10 -> wf_dealer st' ->
       returns (dealerOutcome fuel (du + h) pt) st' (d h)) /\
    returns (standProbs fuel du pt) st
      (mean2 (fun h => let '(bust, less, equal) := d h in
                       ((bust + less)%float,
                        (1 - (bust + less + equal))%float))).
Proof.
  intros Hf Hpt Hdu Hwf. exists (fun h => dealer_value (du + h) pt). split.
  - intros h st' Hh Hwf'. apply returns_dealerOutcome; auto; lia.
  - assert (E : stand_value du pt =
                mean2 (fun h => stand_term (dealer_value (du + h) pt))).
    { unfold stand_value. destruct (pt >? TARGET) eqn:Et; [consts | reflexivity]. }
    change (returns (standProbs fuel du pt) st
              (mean2 (fun h => stand_term (dealer_value (du + h) pt)))).
    rewrite <- E. apply returns_standProbs; auto; lia.
Qed.

Lemma C3_stand_is_mean_over_hole_cards_witness :
  (FUEL <= FUEL)%nat /\ 0 <= 20 <= 21 /\ 1 <= 10 <= 10 /\
  wf_dealer init_state /\
  exists d : Z -> outcome,
    (forall h st', 1 <= h <= 10 -> wf_dealer st' ->
       returns (dealerOutcome FUEL (10 + h) 20) st' (d h)) /\
    returns (standProbs FUEL 10 20) init_state
      (mean2 (fun h => let '(bust, less, equal) := d h in
                       ((bust + less)%float,
                        (1 - (bust + less + equal))%float))).
Proof.
  assert (H1 : (FUEL <= FUEL)%nat) by lia.
  assert (H2 : 0 <= 20 <= 21) by lia.
  assert (H3 : 1 <= 10 <= 10) by lia.
  repeat split; try lia; try apply wf_dealer_init.
  exact (C3_stand_is_mean_over_hole_cards FUEL 10 20 init_state H1 H2 H3
           wf_dealer_init).
Defined.

(** C4.  For every hand score and every upcard below 1 or above 10,
    [computeOptions] returns normally (whatever the fuel, without indexing
    any table) the value-initialised report: the six probabilities are 0.0
    and the best-action string is empty. *)
Theorem C4_invalid_upcard_zero_report (fuel : nat) (hand_score du : Z) :
  du < 1 \/ 10 < du ->
  computeOptions fuel hand_score du =
    Ok (mkOptions 0%float 0%float 0%float 0%float 0%float 0%float EmptyString) /\
  computeOptions_run fuel hand_score du = Ok (Options_zero, []).
Proof.
  intros H. unfold computeOptions, computeOptions_run.
  destruct ((du <? 1) || (du >? 10)) eqn:E; [split; reflexivity | lia].
Qed.

Lemma C4_invalid_upcard_zero_report_witness :
  (0 < 1 \/ 10 < 0) /\
  computeOptions 0 17 0 =
    Ok (mkOptions 0%float 0%float 0%float 0%float 0%float 0%float EmptyString) /\
  computeOptions_run 0 17 0 = Ok (Options_zero, []).
Proof.
  assert (H : 0 < 1 \/ 10 < 0) by (left; lia).
  split; [exact H|]. exact (C4_invalid_upcard_zero_report 0 17 0 H).
Defined.

(** C5, as stated, fails: with the dealer standing on 20 against a player
    total of 18 the entry is (0, 0, 0); neither less nor equal is 1. *)
Lemma C5_counterexample :
  exists bust less equal,
    returns (dealerOutcome FUEL 20 18) init_state (bust, less, equal) /\
    exactly_one_is_one less equal = false.
Proof.
  exists 0%float, 0%float, 0%float. split; [|reflexivity].
  assert (H : (FUEL <= FUEL)%nat) by lia.
  exact (returns_dealerOutcome FUEL 20 18 init_state H ltac:(lia) ltac:(lia)
           wf_dealer_init).
Qed.

(** C5, amended.  For a dealer total from 17 to 21 and a player total from
    0 to 21 the entry is terminal: bust = 0, less is 1 when
    dealerTotal < playerTotal and 0 otherwise, equal is 1 when
    dealerTotal = playerTotal and 0 otherwise.  So less and equal are never
    both 1, and exactly one of them is 1 iff dealerTotal <= playerTotal. *)
Theorem C5_dealer_stop_is_terminal (fuel : nat) (s pt : Z) (st : state) :
  (FUEL <= fuel)%nat -> 17 <= s <= 21 -> 0 <= pt <= 21 -> wf_dealer st ->
  exists bust less equal,
    returns (dealerOutcome fuel s pt) st (bust, less, equal) /\
    bust = 0%float /\
    less = (if s <? pt then 1%float else 0%float) /\
    equal = (if s =? pt then 1%float else 0%float) /\
    feq less 1%float && feq equal 1%float = false /\
    (exactly_one_is_one less equal = true <-> s <= pt).
Proof.
  intros Hf Hs Hpt Hwf.
  exists 0%float, (if s <? pt then 1%float else 0%float),
         (if s =? pt then 1%float else 0%float).
  split.
  { change (returns (dealerOutcome fuel s pt) st (stop_outcome s pt)).
    rewrite <- dealer_value_stop by consts.
    apply returns_dealerOutcome; auto; lia. }
  repeat split; unfold exactly_one_is_one;
    destruct (s <? pt) eqn:E1; destruct (s =? pt) eqn:E2;
    try lia; try reflexivity; vm_compute; try discriminate; intros; lia.
Qed.

Lemma C5_dealer_stop_is_terminal_witness :
  (FUEL <= FUEL)%nat /\ 17 <= 19 <= 21 /\ 0 <= 19 <= 21 /\
  wf_dealer init_state /\
  exists bust less equal,
    returns (dealerOutcome FUEL 19 19) init_state (bust, less, equal) /\
    bust = 0%float /\
    less = (if 19 <? 19 then 1%float else 0%float) /\
    equal = (if 19 =? 19 then 1%float else 0%float) /\
    feq less 1%float && feq equal 1%float = false /\
    (exactly_one_is_one less equal = true <-> 19 <= 19).
Proof.
  assert (H1 : (FUEL <= FUEL)%nat) by lia.
  assert (H2 : 17 <= 19 <= 21) by lia.
  assert (H3 : 0 <= 19 <= 21) by lia.
  split; [exact H1|]. split; [exact H2|]. split; [exact H3|].
  split; [exact wf_dealer_init|].
  exact (C5_dealer_stop_is_terminal FUEL 19 19 init_state H1 H2 H3
           wf_dealer_init).
Defined.

(** C6.  For every player total above 21, whatever the upcard and whatever
    the tables hold, [standProbs] and [optimal] return win = 0.0 and
    loss = 1.0, and leave the tables as they are. *)
Theorem C6_busted_player_loses (fuel : nat) (du s : Z) (st : state) :
  (0 < fuel)%nat -> 21 < s ->
  standProbs fuel du s st = Ok ((0%float, 1%float), st) /\
  optimal fuel du s st = Ok ((0%float, 1%float), st).
Proof.
  intros Hf Hs. split.
  - apply standProbs_bust. consts.
  - apply optimal_bust; [exact Hf | consts].
Qed.

Lemma C6_busted_player_loses_witness :
  (0 < 1)%nat /\ 21 < 22 /\
  standProbs 1 7 22 init_state = Ok ((0%float, 1%float), init_state) /\
  optimal 1 7 22 init_state = Ok ((0%float, 1%float), init_state).
Proof.
  assert (H1 : (0 < 1)%nat) by lia.
  assert (H2 : 21 < 22) by lia.
  split; [exact H1|]. split; [exact H2|].
  exact (C6_busted_player_loses 1 7 22 init_state H1 H2).
Defined.

(** C7.  For every upcard from 1 to 10, [optimal(21)] and [standProbs(21)]
    return the same pair, bit for bit, from any tables that satisfy the
    invariant: at 21 the policy stands. *)
Theorem C7_optimal_stands_on_21 (fuel : nat) (du : Z) (st st' : state) :
  (FUEL <= fuel)%nat -> 1 <= du <= 10 -> wf du st -> wf du st' ->
  exists r,
    returns (optimal fuel du 21) st r /\
    returns (standProbs fuel du 21) st' r.
Proof.
  intros Hf Hdu Hwf Hwf'. exists (stand_value du 21). split.
  - assert (E : optimal_value du 21 = stand_value du 21).
    { rewrite optimal_value_choose by consts. unfold choose.
      assert (H := check_options_sound
                     (fun hs _ o => if hs =? 21
                                    then fge (standWin o) (hitWin o)
                                    else true)
                     ltac:(vm_compute; reflexivity) 21 du ltac:(lia) Hdu).
      change (fge (fst (stand_value du 21)) (fst (hit_value du 21)) = true)
        in H.
      now rewrite H. }
    rewrite <- E. apply returns_optimal; auto; lia.
  - apply returns_standProbs; auto; [lia | apply Hwf'].
Qed.

Lemma C7_optimal_stands_on_21_witness :
  (FUEL <= FUEL)%nat /\ 1 <= 10 <= 10 /\ wf 10 init_state /\
  exists r,
    returns (optimal FUEL 10 21) init_state r /\
    returns (standProbs FUEL 10 21) init_state r.
Proof.
  assert (H1 : (FUEL <= FUEL)%nat) by lia.
  assert (H2 : 1 <= 10 <= 10) by lia.
  split; [exact H1|]. split; [exact H2|]. split; [exact (wf_init 10)|].
  exact (C7_optimal_stands_on_21 FUEL 10 init_state init_state H1 H2
           (wf_init 10) (wf_init 10)).
Defined.

(** C8.  For a player total from 4 to 21 and an upcard from 1 to 10 the
    report's label compares standWin with the immediate-hit win, the mean
    over v = 1..10 of what [optimal] returns for playerTotal + v: it is
    "stand" iff standWin > hitWin, "hit" iff standWin < hitWin and "equal"
    iff standWin == hitWin. *)
Theorem C8_label_compares_stand_with_immediate_hit (fuel : nat) (pt du : Z) :
  (FUEL <= fuel)%nat -> 4 <= pt <= 21 -> 1 <= du <= 10 ->
  exists (out : Options) (stand : float * float)
         (next : Z -> float * float),
    computeOptions fuel pt du = Ok out /\
    (forall st, wf du st -> returns (standProbs fuel du pt) st stand) /\
    (forall v st, 1 <= v <= 10 -> wf du st ->
       returns (optimal fuel du (pt + v)) st (next v)) /\
    standWin out = fst stand /\ hitWin out = fst (mean2 next) /\
    (bestAction out = "stand"%string <->
       fgt (standWin out) (hitWin out) = true) /\
    (bestAction out = "hit"%string <->
       flt (standWin out) (hitWin out) = true) /\
    (bestAction out = "equal"%string <->
       feq (standWin out) (hitWin out) = true).
Proof.
  intros Hf Hpt Hdu.
  exists (options_value pt du), (stand_value du pt),
         (fun v => optimal_value du (pt + v)).
  split; [apply computeOptions_sound; auto; lia|].
  split; [intros st Hwf; apply returns_standProbs; auto; [lia | apply Hwf]|].
  split; [intros v st Hv Hwf; apply returns_optimal; auto; lia|].
  split; [reflexivity|]. split; [reflexivity|].
  assert (H := check_options_sound
                 (fun _ _ o =>
                    match fgt (standWin o) (hitWin o),
                          flt (standWin o) (hitWin o),
                          feq (standWin o) (hitWin o) with
                    | true, false, false | false, true, false
                    | false, false, true => true
                    | _, _, _ => false
                    end)
                 ltac:(vm_compute; reflexivity) pt du ltac:(lia) Hdu).
  cbv beta in H.
  change (bestAction (options_value pt du))
    with (label (standWin (options_value pt du))
                (hitWin (options_value pt du))).
  unfold label.
  change (fgt (hitWin (options_value pt du)) (standWin (options_value pt du)))
    with (flt (standWin (options_value pt du)) (hitWin (options_value pt du))).
  destruct (fgt (standWin (options_value pt du))
                (hitWin (options_value pt du)));
    destruct (flt (standWin (options_value pt du))
                  (hitWin (options_value pt du)));
    destruct (feq (standWin (options_value pt du))
                  (hitWin (options_value pt du)));
    try discriminate H; repeat split; intros; try discriminate; reflexivity.
Qed.

Lemma C8_label_compares_stand_with_immediate_hit_witness :
  (FUEL <= FUEL)%nat /\ 4 <= 16 <= 21 /\ 1 <= 10 <= 10 /\
  exists (out : Options) (stand : float * float)
         (next : Z -> float * float),
    computeOptions FUEL 16 10 = Ok out /\
    (forall st, wf 10 st -> returns (standProbs FUEL 10 16) st stand) /\
    (forall v st, 1 <= v <= 10 -> wf 10 st ->
       returns (optimal FUEL 10 (16 + v)) st (next v)) /\
    standWin out = fst stand /\ hitWin out = fst (mean2 next) /\
    (bestAction out = "stand"%string <->
       fgt (standWin out) (hitWin out) = true) /\
    (bestAction out = "hit"%string <->
       flt (standWin out) (hitWin out) = true) /\
    (bestAction out = "equal"%string <->
       feq (standWin out) (hitWin out) = true).
Proof.
  assert (H1 : (FUEL <= FUEL)%nat) by lia.
  assert (H2 : 4 <= 16 <= 21) by lia.
  assert (H3 : 1 <= 10 <= 10) by lia.
  split; [exact H1|]. split; [exact H2|]. split; [exact H3|].
  exact (C8_label_compares_stand_with_immediate_hit FUEL 16 10 H1 H2 H3).
Defined.

(** C9, as stated, fails in double arithmetic.  Standing on 21 against an
    upcard of 10 has the stand and optimal loss -0x1.999999999999ap-56
    (about -2.2e-17), below 0; and the dealer entry for a dealer total of 7
    and a player total of 21 has bust + less + equal = 1 + 2^-52, above 1. *)
Lemma C9_counterexample :
  (exists out, computeOptions FUEL 21 10 = Ok out /\
               standLoss out = (-0x1.999999999999ap-56)%float /\
               optLoss out = (-0x1.999999999999ap-56)%float /\
               flt (standLoss out) 0%float = true /\
               flt (optLoss out) 0%float = true) /\
  (exists bust less equal,
     returns (dealerOutcome FUEL 7 21) init_state (bust, less, equal) /\
     (bust + less + equal)%float = 0x1.0000000000001p+0%float /\
     fgt (bust + less + equal)%float 1%float = true).
Proof.
  split.
  - eexists. split; [vm_compute; reflexivity|].
    repeat split; vm_compute; reflexivity.
  - unfold returns.
    destruct (dealerOutcome FUEL 7 21 init_state) as [[[[b l] e] st']| |] eqn:E;
      try (vm_compute in E; discriminate).
    exists b, l, e. split; [eauto|].
    assert (E' : eval_dealer 7 21 = Some (b, l, e))
      by (unfold eval_dealer; now rewrite E).
    vm_compute in E'. injection E' as <- <- <-.
    split; vm_compute; reflexivity.
Qed.

(** C9, amended.  For a player total from 0 to 21 and an upcard from 1 to
    10, from any tables that satisfy the invariant: the stand, hit and
    optimal win values and the hit loss value lie in [0,1]; the stand and
    optimal loss values lie in [0,1] too, except at a player total of 21
    against an upcard from 4 to 10, where they lie in [-2^-54, 1]; every
    dealer entry for a dealer total from 1 to 31 has bust, less and equal
    in [0,1] and bust + less + equal <= 1, except the two entries for the
    dealer totals 7 and 15 against a player total of 21, where the sum is
    <= 1 + 2^-52. *)
Theorem C9_probabilities_in_range (fuel : nat) (pt du : Z) (st : state) :
  (FUEL <= fuel)%nat -> 0 <= pt <= 21 -> 1 <= du <= 10 -> wf du st ->
  (exists stand hit opt,
     returns (standProbs fuel du pt) st stand /\
     returns (hitImmediate fuel pt du) st hit /\
     returns (optimal fuel du pt) st opt /\
     in01 (fst stand) = true /\ in01 (fst hit) = true /\
     in01 (fst opt) = true /\ in01 (snd hit) = true /\
     loss_ok (snd stand) = true /\ loss_ok (snd opt) = true /\
     (pt < 21 \/ du <= 3 ->
        in01 (snd stand) = true /\ in01 (snd opt) = true)) /\
  (forall s st', 1 <= s <= 31 -> wf_dealer st' ->
     exists bust less equal,
       returns (dealerOutcome fuel s pt) st' (bust, less, equal) /\
       in01 bust = true /\ in01 less = true /\ in01 equal = true /\
       fge sum_ceiling (bust + less + equal)%float = true /\
       (pt < 21 \/ (s <> 7 /\ s <> 15) ->
          fge 1%float (bust + less + equal)%float = true)).
Proof.
  intros Hf Hpt Hdu Hwf. split.
  - exists (stand_value du pt), (hit_value du pt), (optimal_value du pt).
    split; [apply returns_standProbs; auto; [lia | apply Hwf]|].
    split; [eapply wp_returns; apply hitImmediate_sound; auto; lia|].
    split; [apply returns_optimal; auto; lia|].
    assert (H := check_options_sound
                   (fun hs d o =>
                      in01 (standWin o) && in01 (hitWin o) &&
                      in01 (optWin o) && in01 (hitLoss o) &&
                      loss_ok (standLoss o) && loss_ok (optLoss o) &&
                      (if (hs <? 21) || (d <=? 3)
                       then in01 (standLoss o) && in01 (optLoss o)
                       else true))
                   ltac:(vm_compute; reflexivity) pt du Hpt Hdu).
    cbv beta in H.
    change (standWin (options_value pt du)) with (fst (stand_value du pt)) in H.
    change (standLoss (options_value pt du)) with (snd (stand_value du pt)) in H.
    change (hitWin (options_value pt du)) with (fst (hit_value du pt)) in H.
    change (hitLoss (options_value pt du)) with (snd (hit_value du pt)) in H.
    change (optWin (options_value pt du)) with (fst (optimal_value du pt)) in H.
    change (optLoss (options_value pt du)) with (snd (optimal_value du pt)) in H.
    do 6 (apply andb_true_iff in H; destruct H as [H ?]).
    repeat (split; [assumption|]).
    intros Hc. destruct ((pt <? 21) || (du <=? 3)) eqn:E; [|lia].
    now apply andb_true_iff.
  - intros s st' Hs Hwf'.
    assert (H := check_dealer_sound
                   (fun d p o =>
                      let '(b, l, e) := o in
                      in01 b && in01 l && in01 e &&
                      fge sum_ceiling (b + l + e)%float &&
                      (if (p <? 21) || (negb (d =? 7) && negb (d =? 15))
                       then fge 1%float (b + l + e)%float
                       else true))
                   ltac:(vm_compute; reflexivity) s pt ltac:(lia) Hpt).
    cbv beta in H.
    assert (R := returns_dealerOutcome fuel s pt st' Hf ltac:(lia) Hpt Hwf').
    destruct (dealer_value s pt) as [[b l] e].
    exists b, l, e. split; [exact R|].
    do 4 (apply andb_true_iff in H; destruct H as [H ?]).
    repeat (split; [assumption|]).
    intros Hc.
    destruct ((pt <? 21) || (negb (s =? 7) && negb (s =? 15))) eqn:E;
      [assumption | lia].
Qed.

Lemma C9_probabilities_in_range_witness :
  (FUEL <= FUEL)%nat /\ 0 <= 21 <= 21 /\ 1 <= 10 <= 10 /\ wf 10 init_state /\
  (exists stand hit opt,
     returns (standProbs FUEL 10 21) init_state stand /\
     returns (hitImmediate FUEL 21 10) init_state hit /\
     returns (optimal FUEL 10 21) init_state opt /\
     in01 (fst stand) = true /\ in01 (fst hit) = true /\
     in01 (fst opt) = true /\ in01 (snd hit) = true /\
     loss_ok (snd stand) = true /\ loss_ok (snd opt) = true /\
     (21 < 21 \/ 10 <= 3 ->
        in01 (snd stand) = true /\ in01 (snd opt) = true)) /\
  (forall s st', 1 <= s <= 31 -> wf_dealer st' ->
     exists bust less equal,
       returns (dealerOutcome FUEL s 21) st' (bust, less, equal) /\
       in01 bust = true /\ in01 less = true /\ in01 equal = true /\
       fge sum_ceiling (bust + less + equal)%float = true /\
       (21 < 21 \/ (s <> 7 /\ s <> 15) ->
          fge 1%float (bust + less + equal)%float = true)).
Proof.
  assert (H1 : (FUEL <= FUEL)%nat) by lia.
  assert (H2 : 0 <= 21 <= 21) by lia.
  assert (H3 : 1 <= 10 <= 10) by lia.
  split; [exact H1|]. split; [exact H2|]. split; [exact H3|].
  split; [exact (wf_init 10)|].
  exact (C9_probabilities_in_range FUEL 21 10 init_state H1 H2 H3 (wf_init 10)).
Defined.

(** C10.  For a hand score from 4 to 21 and an upcard from 1 to 10 a run of
    [computeOptions] never indexes outside a table (it ends in [Ok], not in
    [OutOfBounds]); every index into the dealer tables has its first
    component in [2,26] and its second in [4,21], and every index into
    memoWin and memoLoss lies in [4,31]. *)
Theorem C10_indices_in_bounds (fuel : nat) (hand_score du : Z) :
  (FUEL <= fuel)%nat -> 4 <= hand_score <= 21 -> 1 <= du <= 10 ->
  exists out tr,
    computeOptions_run fuel hand_score du = Ok (out, tr) /\
    Forall (fun a => match a with
                     | AccDealer i j => 2 <= i <= 26 /\ 4 <= j <= 21
                     | AccMemo i => 4 <= i <= 31
                     end) tr.
Proof.
  intros Hf Hhs Hdu.
  assert (Hall : forallb (fun p => if 4 <=? fst p then run_in_range p
                                   else true) grid = true)
    by (vm_compute; reflexivity).
  rewrite forallb_forall in Hall.
  specialize (Hall (hand_score, du) (in_grid hand_score du ltac:(lia) Hdu)).
  simpl fst in Hall. destruct (4 <=? hand_score) eqn:E; [|lia].
  unfold run_in_range in Hall. simpl fst in Hall. simpl snd in Hall.
  destruct (computeOptions_run FUEL hand_score du) as [[out tr]| |] eqn:Erun;
    try discriminate.
  exists out, tr. split.
  - eapply computeOptions_run_mono; [exact Hf | exact Erun].
  - rewrite forallb_forall in Hall. apply Forall_forall. intros a Ha.
    apply list_elem_of_In in Ha.
    specialize (Hall a Ha). destruct a as [i j|i]; simpl in Hall; lia.
Qed.

Lemma C10_indices_in_bounds_witness :
  (FUEL <= FUEL)%nat /\ 4 <= 4 <= 21 /\ 1 <= 1 <= 10 /\
  exists out tr,
    computeOptions_run FUEL 4 1 = Ok (out, tr) /\
    Forall (fun a => match a with
                     | AccDealer i j => 2 <= i <= 26 /\ 4 <= j <= 21
                     | AccMemo i => 4 <= i <= 31
                     end) tr.
Proof.
  assert (H1 : (FUEL <= FUEL)%nat) by lia.
  assert (H2 : 4 <= 4 <= 21) by lia.
  assert (H3 : 1 <= 1 <= 10) by lia.
  split; [exact H1|]. split; [exact H2|]. split; [exact H3|].
  exact (C10_indices_in_bounds FUEL 4 1 H1 H2 H3).
Defined.

(** The bound on the hand score matters: a negative hand score indexes
    memoWin below its first cell. *)
Example negative_hand_score_out_of_bounds :
  computeOptions FUEL (-1) 1 = OutOfBounds.
Proof. vm_compute. reflexivity. Qed.

(** * Further properties of the program *)

(** ** The wrapper [calculateHitChance] *)

(** X1.  With an upcard below 1 or above 10, [calculateHitChance] returns
    the pair (0.0, 0.0) for every hand score: the win and the loss are both
    zero, also for a hand above 21. *)
Theorem calculateHitChance_invalid_upcard (fuel : nat) (hand_score du : Z) :
  du < 1 \/ 10 < du ->
  calculateHitChance fuel hand_score du = Ok (0%float, 0%float).
Proof.
  intros H. unfold calculateHitChance, computeOptions, computeOptions_run.
  destruct ((du <? 1) || (du >? 10)) eqn:E; [reflexivity | lia].
Qed.

Lemma calculateHitChance_invalid_upcard_witness :
  (11 < 1 \/ 10 < 11) /\
  calculateHitChance 0 25 11 = Ok (0%float, 0%float).
Proof.
  assert (H : 11 < 1 \/ 10 < 11) by (right; lia).
  split; [exact H|]. exact (calculateHitChance_invalid_upcard 0 25 11 H).
Defined.

(** X2.  With an upcard from 1 to 10 and a hand score from 0 to
    INT_MAX - 10, [calculateHitChance] returns the pair that [optimal]
    returns for that hand score, from any tables that satisfy the
    invariant. *)
Theorem calculateHitChance_is_optimal (fuel : nat) (hand_score du : Z)
        (st : state) :
  (FUEL <= fuel)%nat -> 0 <= hand_score <= MAX_HAND -> 1 <= du <= 10 ->
  wf du st ->
  exists r,
    calculateHitChance fuel hand_score du = Ok r /\
    returns (optimal fuel du hand_score) st r.
Proof.
  intros Hf [Hhs _] Hdu Hwf. exists (optimal_value du hand_score). split.
  - unfold calculateHitChance.
    rewrite computeOptions_sound by assumption.
    unfold options_value. simpl. now destruct (optimal_value du hand_score).
  - now apply returns_optimal.
Qed.

Lemma calculateHitChance_is_optimal_witness :
  (FUEL <= FUEL)%nat /\ 0 <= 16 <= MAX_HAND /\ 1 <= 7 <= 10 /\
  wf 7 init_state /\
  exists r,
    calculateHitChance FUEL 16 7 = Ok r /\
    returns (optimal FUEL 7 16) init_state r.
Proof.
  assert (H1 : (FUEL <= FUEL)%nat) by lia.
  assert (H2 : 0 <= 16 <= MAX_HAND) by (unfold MAX_HAND, INT_MAX, MAX_CARD; lia).
  assert (H3 : 1 <= 7 <= 10) by lia.
  split; [exact H1|]. split; [exact H2|]. split; [exact H3|].
  split; [exact (wf_init 7)|].
  exact (calculateHitChance_is_optimal FUEL 16 7 init_state H1 H2 H3
           (wf_init 7)).
Defined.

(** ** Hand scores outside 4..21 *)

Lemma for_each_pure {A} (vs : list Z) (body : Z -> A -> M A)
      (step : A -> Z -> A) (st : state) :
  (forall v acc, In v vs -> body v acc st = Ok (step acc v, st)) ->
  forall acc, for_each vs body acc st = Ok (fold_left step vs acc, st).
Proof.
  induction vs as [|v vs IH]; intros Hbody acc; simpl; [reflexivity|].
  unfold bind. rewrite Hbody by (now left).
  apply IH. intros v' acc' Hin. apply Hbody. now right.
Qed.

Lemma hitImmediate_bust (fuel : nat) (hand_score du : Z) (st : state) :
  (0 < fuel)%nat -> 20 < hand_score ->
  hitImmediate fuel hand_score du st = Ok ((0%float, 1%float), st).
Proof.
  intros Hf Hhs. unfold hitImmediate, for_cards, bind.
  rewrite (for_each_pure card_values _
             (fun acc _ => add2 acc (0%float, 1%float))).
  - vm_compute. reflexivity.
  - intros v [hitW hitL] Hv. apply card_values_range in Hv.
    unfold bind. rewrite optimal_bust by (auto; consts). reflexivity.
Qed.

(** X3.  For a hand score above 21, up to INT_MAX - 10, and an upcard
    from 1 to 10 the report is the same whatever the hand and the upcard:
    stand, hit and optimal are all win 0.0 and loss 1.0, the label is
    "equal", and no table cell is indexed. *)
Theorem computeOptions_busted_hand (fuel : nat) (hand_score du : Z) :
  (0 < fuel)%nat -> 21 < hand_score <= MAX_HAND -> 1 <= du <= 10 ->
  computeOptions_run fuel hand_score du =
    Ok (mkOptions 0%float 1%float 0%float 1%float 0%float 1%float "equal",
        []).
Proof.
  intros Hf [Hhs _] Hdu. unfold computeOptions_run.
  destruct ((du <? 1) || (du >? 10)) eqn:E; [lia|].
  unfold computeOptions_body.
  unfold bind at 1. rewrite optimal_bust by (auto; consts).
  unfold bind at 1. rewrite standProbs_bust by consts.
  unfold bind at 1. rewrite hitImmediate_bust by (auto; lia).
  vm_compute. reflexivity.
Qed.

Lemma computeOptions_busted_hand_witness :
  (0 < 1)%nat /\ 21 < 22 <= MAX_HAND /\ 1 <= 5 <= 10 /\
  computeOptions_run 1 22 5 =
    Ok (mkOptions 0%float 1%float 0%float 1%float 0%float 1%float "equal",
        []).
Proof.
  assert (H1 : (0 < 1)%nat) by lia.
  assert (H2 : 21 < 22 <= MAX_HAND) by (unfold MAX_HAND, INT_MAX, MAX_CARD; lia).
  assert (H3 : 1 <= 5 <= 10) by lia.
  split; [exact H1|]. split; [exact H2|]. split; [exact H3|].
  exact (computeOptions_busted_hand 1 22 5 H1 H2 H3).
Defined.

(** X4.  With an upcard from 1 to 10, the sign of the hand score decides
    whether [computeOptions] stays inside its tables: it returns a report
    for every hand score from 0 to INT_MAX - 10, and for every negative
    hand score its first table access, memoWin[hand_score] at line 104, is
    out of bounds. *)
Theorem computeOptions_bounds_by_hand_score (fuel : nat)
        (hand_score negative_score du : Z) :
  (FUEL <= fuel)%nat -> 1 <= du <= 10 ->
  0 <= hand_score <= MAX_HAND -> negative_score < 0 ->
  (exists out, computeOptions fuel hand_score du = Ok out) /\
  computeOptions fuel negative_score du = OutOfBounds.
Proof.
  intros Hf Hdu [Hhs _] Hneg. split.
  - exists (options_value hand_score du).
    now apply computeOptions_sound.
  - unfold computeOptions, computeOptions_run.
    destruct ((du <? 1) || (du >? 10)) eqn:E; [lia|].
    unfold computeOptions_body. unfold bind at 1.
    destruct fuel as [|fuel']; [unfold FUEL in Hf; lia|].
    rewrite optimal_S.
    destruct (negative_score >? TARGET) eqn:Et; [consts|].
    destruct (negative_score <=? MAX_SUM) eqn:Em; [|consts].
    unfold bind, rd1, at1.
    destruct (0 <=? negative_score) eqn:E0; [lia | reflexivity].
Qed.

Lemma computeOptions_bounds_by_hand_score_witness :
  (FUEL <= FUEL)%nat /\ 1 <= 1 <= 10 /\ 0 <= 0 <= MAX_HAND /\ -1 < 0 /\
  (exists out, computeOptions FUEL 0 1 = Ok out) /\
  computeOptions FUEL (-1) 1 = OutOfBounds.
Proof.
  assert (H1 : (FUEL <= FUEL)%nat) by lia.
  assert (H2 : 1 <= 1 <= 10) by lia.
  assert (H3 : 0 <= 0 <= MAX_HAND) by (unfold MAX_HAND, INT_MAX, MAX_CARD; lia).
  assert (H4 : -1 < 0) by lia.
  split; [exact H1|]. split; [exact H2|]. split; [exact H3|].
  split; [exact H4|].
  exact (computeOptions_bounds_by_hand_score FUEL 0 (-1) 1 H1 H2 H3 H4).
Defined.

(** ** How the fields of a report relate *)

(** X5.  For a hand score from 0 to 21 and an upcard from 1 to 10 the
    label and the optimal pair of the report agree: the optimal pair is the
    hit pair exactly when the label is "hit", and otherwise (label "stand"
    or "equal") it is the stand pair. *)
Theorem label_agrees_with_policy (fuel : nat) (hand_score du : Z) :
  (FUEL <= fuel)%nat -> 0 <= hand_score <= 21 -> 1 <= du <= 10 ->
  exists out,
    computeOptions fuel hand_score du = Ok out /\
    (bestAction out = "hit"%string ->
       optWin out = hitWin out /\ optLoss out = hitLoss out) /\
    (bestAction out <> "hit"%string ->
       optWin out = standWin out /\ optLoss out = standLoss out).
Proof.
  intros Hf Hhs Hdu. exists (options_value hand_score du).
  split; [apply computeOptions_sound; auto; lia|].
  assert (H := check_options_sound
                 (fun _ _ o =>
                    eqb (fge (standWin o) (hitWin o))
                        (negb (fgt (hitWin o) (standWin o))) &&
                    negb (fgt (standWin o) (hitWin o) &&
                          fgt (hitWin o) (standWin o)))
                 ltac:(vm_compute; reflexivity) hand_score du Hhs Hdu).
  cbv beta in H. apply andb_true_iff in H. destruct H as [H1 H2].
  apply eqb_prop in H1.
  change (bestAction (options_value hand_score du))
    with (label (standWin (options_value hand_score du))
                (hitWin (options_value hand_score du))).
  assert (Hopt := optimal_value_choose du hand_score ltac:(consts)).
  unfold choose in Hopt.
  change (fst (stand_value du hand_score))
    with (standWin (options_value hand_score du)) in Hopt.
  change (fst (hit_value du hand_score))
    with (hitWin (options_value hand_score du)) in Hopt.
  change (optWin (options_value hand_score du))
    with (fst (optimal_value du hand_score)).
  change (optLoss (options_value hand_score du))
    with (snd (optimal_value du hand_score)).
  rewrite Hopt, H1. unfold label.
  destruct (fgt (standWin (options_value hand_score du))
                (hitWin (options_value hand_score du)));
    destruct (fgt (hitWin (options_value hand_score du))
                  (standWin (options_value hand_score du)));
    try discriminate H2; simpl; split; intros H;
    try discriminate H; try (now exfalso; apply H); split; reflexivity.
Qed.

Lemma label_agrees_with_policy_witness :
  (FUEL <= FUEL)%nat /\ 0 <= 12 <= 21 /\ 1 <= 6 <= 10 /\
  exists out,
    computeOptions FUEL 12 6 = Ok out /\
    (bestAction out = "hit"%string ->
       optWin out = hitWin out /\ optLoss out = hitLoss out) /\
    (bestAction out <> "hit"%string ->
       optWin out = standWin out /\ optLoss out = standLoss out).
Proof.
  assert (H1 : (FUEL <= FUEL)%nat) by lia.
  assert (H2 : 0 <= 12 <= 21) by lia.
  assert (H3 : 1 <= 6 <= 10) by lia.
  split; [exact H1|]. split; [exact H2|]. split; [exact H3|].
  exact (label_agrees_with_policy FUEL 12 6 H1 H2 H3).
Defined.

(** X6.  For a hand score from 0 to 21 and an upcard from 1 to 10, win plus
    loss (added in doubles) lies in [0,1] for the stand, the hit and the
    optimal pair of the report: what is left is the probability of a
    push. *)
Theorem win_plus_loss_at_most_one (fuel : nat) (hand_score du : Z) :
  (FUEL <= fuel)%nat -> 0 <= hand_score <= 21 -> 1 <= du <= 10 ->
  exists out,
    computeOptions fuel hand_score du = Ok out /\
    in01 (standWin out + standLoss out)%float = true /\
    in01 (hitWin out + hitLoss out)%float = true /\
    in01 (optWin out + optLoss out)%float = true.
Proof.
  intros Hf Hhs Hdu. exists (options_value hand_score du).
  split; [apply computeOptions_sound; auto; lia|].
  assert (H := check_options_sound
                 (fun _ _ o =>
                    in01 (standWin o + standLoss o)%float &&
                    in01 (hitWin o + hitLoss o)%float &&
                    in01 (optWin o + optLoss o)%float)
                 ltac:(vm_compute; reflexivity) hand_score du Hhs Hdu).
  cbv beta in H.
  do 2 (apply andb_true_iff in H; destruct H as [H ?]). auto.
Qed.

Lemma win_plus_loss_at_most_one_witness :
  (FUEL <= FUEL)%nat /\ 0 <= 21 <= 21 /\ 1 <= 10 <= 10 /\
  exists out,
    computeOptions FUEL 21 10 = Ok out /\
    in01 (standWin out + standLoss out)%float = true /\
    in01 (hitWin out + hitLoss out)%float = true /\
    in01 (optWin out + optLoss out)%float = true.
Proof.
  assert (H1 : (FUEL <= FUEL)%nat) by lia.
  assert (H2 : 0 <= 21 <= 21) by lia.
  assert (H3 : 1 <= 10 <= 10) by lia.
  split; [exact H1|]. split; [exact H2|]. split; [exact H3|].
  exact (win_plus_loss_at_most_one FUEL 21 10 H1 H2 H3).
Defined.

(** ** Standing below 17 *)

Lemma stop_outcome_below_17 (s pt pt' : Z) :
  17 <= s -> pt <= 16 -> pt' <= 16 -> stop_outcome s pt = stop_outcome s pt'.
Proof.
  intros Hs Hpt Hpt'. unfold stop_outcome.
  destruct (s <? pt) eqn:E1; [lia|]. destruct (s <? pt') eqn:E2; [lia|].
  destruct (s =? pt) eqn:E3; [lia|]. destruct (s =? pt') eqn:E4; [lia|].
  reflexivity.
Qed.

Lemma dealer_rec_below_17 (n : nat) :
  forall s pt pt', pt <= 16 -> pt' <= 16 ->
                   dealer_rec n s pt = dealer_rec n s pt'.
Proof.
  induction n as [|n IH]; intros s pt pt' Hpt Hpt'.
  - simpl. destruct (s >? TARGET); [reflexivity|].
    destruct (s >=? 17) eqn:E; [|reflexivity].
    apply stop_outcome_below_17; lia.
  - rewrite !dealer_rec_S.
    destruct (s >? TARGET); [reflexivity|].
    destruct (s >=? 17) eqn:E.
    + apply stop_outcome_below_17; lia.
    + apply mean3_ext. intros v Hv. now apply IH.
Qed.

(** X7.  Standing on any total below 17 is the same bet: for an upcard
    from 1 to 10, [standProbs] returns the same pair, bit for bit, for all
    player totals from 0 to 16 (the dealer never stops below 17, so the
    player wins exactly when the dealer busts). *)
Theorem stand_below_17_ignores_total (fuel : nat) (du pt pt' : Z)
        (st st' : state) :
  (FUEL <= fuel)%nat -> 1 <= du <= 10 -> 0 <= pt <= 16 -> 0 <= pt' <= 16 ->
  wf_dealer st -> wf_dealer st' ->
  exists r,
    returns (standProbs fuel du pt) st r /\
    returns (standProbs fuel du pt') st' r.
Proof.
  intros Hf Hdu Hpt Hpt' Hwf Hwf'. exists (stand_value du pt). split.
  - apply returns_standProbs; auto; lia.
  - assert (E : stand_value du pt = stand_value du pt').
    { unfold stand_value.
      destruct (pt >? TARGET) eqn:E1; [consts|].
      destruct (pt' >? TARGET) eqn:E2; [consts|].
      apply mean2_ext. intros h Hh. unfold dealer_value.
      rewrite (dealer_rec_below_17 17 (du + h) pt pt') by lia. reflexivity. }
    rewrite E. apply returns_standProbs; auto; lia.
Qed.

Lemma stand_below_17_ignores_total_witness :
  (FUEL <= FUEL)%nat /\ 1 <= 6 <= 10 /\ 0 <= 4 <= 16 /\ 0 <= 16 <= 16 /\
  wf_dealer init_state /\
  exists r,
    returns (standProbs FUEL 6 4) init_state r /\
    returns (standProbs FUEL 6 16) init_state r.
Proof.
  assert (H1 : (FUEL <= FUEL)%nat) by lia.
  assert (H2 : 1 <= 6 <= 10) by lia.
  assert (H3 : 0 <= 4 <= 16) by lia.
  assert (H4 : 0 <= 16 <= 16) by lia.
  split; [exact H1|]. split; [exact H2|]. split; [exact H3|].
  split; [exact H4|]. split; [exact wf_dealer_init|].
  exact (stand_below_17_ignores_total FUEL 6 4 16 init_state init_state
           H1 H2 H3 H4 wf_dealer_init wf_dealer_init).
Defined.

(** ** What the closures leave untouched *)

Lemma bind_Ok_inv {A B} (m : M A) (k : A -> M B) (st : state)
      (r : B * state) :
  bind m k st = Ok r -> exists a st1, m st = Ok (a, st1) /\ k a st1 = Ok r.
Proof.
  unfold bind. destruct (m st) as [[a st1]| |]; try discriminate. eauto.
Qed.

Lemma ret_Ok_inv {A} (a b : A) (st st' : state) :
  ret a st = Ok (b, st') -> b = a /\ st' = st.
Proof. unfold ret. intros [= -> ->]. auto. Qed.

Lemma rd2_Ok_inv (tbl : state -> list (list float)) (i j : Z) (x : float)
      (st st' : state) :
  rd2 tbl i j st = Ok (x, st') ->
  at2 (tbl st) i j = Some x /\ st' = log (AccDealer i j) st.
Proof.
  unfold rd2. destruct (at2 (tbl st) i j); [|discriminate].
  intros [= -> <-]. auto.
Qed.

Lemma for_each_rel {A} (R : state -> state -> Prop) (vs : list Z)
      (body : Z -> A -> M A) :
  (forall st, R st st) ->
  (forall st1 st2 st3, R st1 st2 -> R st2 st3 -> R st1 st3) ->
  (forall v acc st a st', In v vs -> body v acc st = Ok (a, st') ->
                          R st st') ->
  forall acc st a st', for_each vs body acc st = Ok (a, st') -> R st st'.
Proof.
  intros Hrefl Htrans. induction vs as [|v vs IH]; intros Hbody acc st a st' H.
  - apply ret_Ok_inv in H. destruct H as [_ ->]. apply Hrefl.
  - simpl in H. apply bind_Ok_inv in H. destruct H as (a1 & st1 & H1 & H2).
    eapply Htrans.
    + eapply Hbody; [now left | exact H1].
    + eapply IH; [|exact H2]. intros v' acc' st0 a0 st0' Hin.
      apply Hbody. now right.
Qed.

Lemma cell_eq_refl (st : state) (s pt : Z) : cell_eq st st s pt.
Proof. unfold cell_eq. auto. Qed.

Lemma cell_eq_trans (st1 st2 st3 : state) (s pt : Z) :
  cell_eq st1 st2 s pt -> cell_eq st2 st3 s pt -> cell_eq st1 st3 s pt.
Proof.
  unfold cell_eq. intros (A1 & A2 & A3) (B1 & B2 & B3).
  repeat split; congruence.
Qed.

Lemma filled_cell_eq (st st' : state) (s pt : Z) :
  cell_eq st st' s pt -> filled st s pt -> filled st' s pt.
Proof.
  intros (E & _) (b & Hb & Hset). exists b. split; [congruence | exact Hset].
Qed.

Lemma dealer_frame_refl (s pt : Z) (st : state) : dealer_frame s pt st st.
Proof.
  unfold dealer_frame. repeat split; auto.
Qed.

Lemma dealer_frame_trans (s pt : Z) (st1 st2 st3 : state) :
  dealer_frame s pt st1 st2 -> dealer_frame s pt st2 st3 ->
  dealer_frame s pt st1 st3.
Proof.
  intros (W1 & L1 & F1) (W2 & L2 & F2).
  split; [congruence|]. split; [congruence|].
  intros s' pt' H. eapply cell_eq_trans; [apply F1; exact H|].
  apply F2. destruct H as [H|[H|H]]; auto.
  right. right. eapply filled_cell_eq; [|exact H]. apply F1. auto.
Qed.

Lemma dealer_frame_weaken (s s0 pt : Z) (st st' : state) :
  s0 <= s -> dealer_frame s pt st st' -> dealer_frame s0 pt st st'.
Proof.
  intros Hle (W & L & F). split; [exact W|]. split; [exact L|].
  intros s' pt' [H|[H|H]]; apply F; auto. right. left. lia.
Qed.

Lemma dealer_frame_log (s pt : Z) (a : access) (st : state) :
  dealer_frame s pt st (log a st).
Proof. exact (dealer_frame_refl s pt st). Qed.

(** The three writes of one cell change that cell only. *)
Lemma write3_frame (s pt : Z) (b l e : float) (st st' : state) :
  (let* _ := wrBust s pt b in
   let* _ := wrLess s pt l in
   wrEqual s pt e) st = Ok (tt, st') ->
  memoWin st' = memoWin st /\ memoLoss st' = memoLoss st /\
  forall s' pt', s' <> s \/ pt' <> pt -> cell_eq st st' s' pt'.
Proof.
  intros H.
  apply bind_Ok_inv in H. destruct H as ([] & st1 & H1 & H).
  apply bind_Ok_inv in H. destruct H as ([] & st2 & H2 & H3).
  unfold wrBust in H1. destruct (at2 (dealerBust st) s pt) eqn:E1;
    [|discriminate]. injection H1 as <-.
  unfold wrLess in H2. simpl in H2.
  destruct (at2 (dealerLess st) s pt) eqn:E2; [|discriminate].
  injection H2 as <-.
  unfold wrEqual in H3. simpl in H3.
  destruct (at2 (dealerEqual st) s pt) eqn:E3; [|discriminate].
  injection H3 as <-. simpl.
  apply at2_Some_nonneg in E1. destruct E1 as [Hs Hpt].
  split; [reflexivity|]. split; [reflexivity|].
  intros s' pt' Hne.
  assert (Hne' : s <> s' \/ pt <> pt') by (destruct Hne; [left | right]; lia).
  unfold cell_eq. simpl. repeat split; try reflexivity;
    apply at2_set2_ne; assumption.
Qed.

Lemma computeDealer_frame (fuel : nat) :
  forall s pt st st',
    computeDealer fuel s pt st = Ok (tt, st') -> dealer_frame s pt st st'.
Proof.
  induction fuel as [|fuel IH]; intros s pt st st' H; [discriminate|].
  rewrite computeDealer_S in H.
  destruct (s >? MAX_SUM).
  { apply ret_Ok_inv in H. destruct H as [_ ->]. apply dealer_frame_refl. }
  apply bind_Ok_inv in H. destruct H as (b0 & st0 & Hrd & H).
  apply rd2_Ok_inv in Hrd. destruct Hrd as [Hb0 ->].
  destruct (fge b0 unset) eqn:Efilled.
  { apply ret_Ok_inv in H. destruct H as [_ ->]. apply dealer_frame_log. }
  assert (Hwrite : forall st1 b l e,
            dealer_frame (s + 1) pt st st1 ->
            (let* _ := wrBust s pt b in
             let* _ := wrLess s pt l in
             wrEqual s pt e) st1 = Ok (tt, st') ->
            dealer_frame s pt st st').
  { intros st1 b l e (W1 & L1 & F1) Hw.
    apply write3_frame in Hw. destruct Hw as (W2 & L2 & F2).
    split; [congruence|]. split; [congruence|].
    intros s' pt' Hc. eapply cell_eq_trans.
    - apply F1. destruct Hc as [Hc|[Hc|Hc]]; auto. right. left. lia.
    - apply F2. destruct Hc as [Hc|[Hc|Hc]]; [now right | left; lia |].
      destruct Hc as (b' & Hb' & Hset).
      destruct (Z.eq_dec s' s) as [->|]; [|now left].
      destruct (Z.eq_dec pt' pt) as [->|]; [|now right].
      rewrite Hb0 in Hb'. injection Hb' as <-. congruence. }
  destruct (s >? TARGET).
  { eapply Hwrite; [|exact H]. apply dealer_frame_log. }
  destruct (s >=? 17).
  { eapply Hwrite; [|exact H]. apply dealer_frame_log. }
  apply bind_Ok_inv in H. destruct H as ([[accB accL] accE] & st1 & Hloop & H).
  eapply Hwrite; [|exact H].
  eapply dealer_frame_trans; [apply (dealer_frame_log (s + 1) pt)|].
  unfold for_cards in Hloop.
  eapply (for_each_rel (dealer_frame (s + 1) pt)); [| | |exact Hloop].
  - apply dealer_frame_refl.
  - apply dealer_frame_trans.
  - intros v [[aB aL] aE] sta a sta' Hv Hbody.
    apply card_values_range in Hv. cbv zeta in Hbody.
    destruct (s + v >? MAX_SUM).
    { apply ret_Ok_inv in Hbody. destruct Hbody as [_ ->].
      apply dealer_frame_refl. }
    apply bind_Ok_inv in Hbody. destruct Hbody as (c & stb & Hc & Hbody).
    apply rd2_Ok_inv in Hc. destruct Hc as [_ ->].
    apply bind_Ok_inv in Hbody. destruct Hbody as ([] & stc & Hcall & Hbody).
    apply bind_Ok_inv in Hbody. destruct Hbody as (b & std & Hb & Hbody).
    apply rd2_Ok_inv in Hb. destruct Hb as [_ ->].
    apply bind_Ok_inv in Hbody. destruct Hbody as (l & ste & Hl & Hbody).
    apply rd2_Ok_inv in Hl. destruct Hl as [_ ->].
    apply bind_Ok_inv in Hbody. destruct Hbody as (e & stf & He & Hbody).
    apply rd2_Ok_inv in He. destruct He as [_ ->].
    apply ret_Ok_inv in Hbody. destruct Hbody as [_ ->].
    assert (Hcall' : dealer_frame (s + 1) pt sta stc).
    { destruct (flt c unset).
      - apply (dealer_frame_weaken (s + v)); [lia|].
        apply (dealer_frame_trans _ _ _ (log (AccDealer (s + v) pt) sta));
          [apply dealer_frame_log | now apply IH].
      - apply ret_Ok_inv in Hcall. destruct Hcall as [_ ->].
        apply dealer_frame_log. }
    destruct Hcall' as (W & L & F). split; [exact W|]. split; [exact L|].
    exact F.
Qed.

Lemma standProbs_frame (fuel : nat) (du s : Z) (r : float * float)
      (st st' : state) :
  standProbs fuel du s st = Ok (r, st') -> dealer_frame (du + 1) s st st'.
Proof.
  unfold standProbs. intros H. destruct (s >? TARGET).
  { apply ret_Ok_inv in H. destruct H as [_ ->]. apply dealer_frame_refl. }
  apply bind_Ok_inv in H. destruct H as ([win loss] & st1 & Hloop & H).
  apply ret_Ok_inv in H. destruct H as [_ ->].
  unfold for_cards in Hloop.
  eapply (for_each_rel (dealer_frame (du + 1) s)); [| | |exact Hloop].
  - apply dealer_frame_refl.
  - apply dealer_frame_trans.
  - intros v [w l] sta a sta' Hv Hbody.
    apply card_values_range in Hv. cbv zeta in Hbody.
    destruct (du + v >? MAX_SUM).
    { apply ret_Ok_inv in Hbody. destruct Hbody as [_ ->].
      apply dealer_frame_refl. }
    apply bind_Ok_inv in Hbody. destruct Hbody as (c & stb & Hc & Hbody).
    apply rd2_Ok_inv in Hc. destruct Hc as [_ ->].
    apply bind_Ok_inv in Hbody. destruct Hbody as ([] & stc & Hcall & Hbody).
    repeat (apply bind_Ok_inv in Hbody;
            destruct Hbody as (? & ? & Hrd & Hbody);
            apply rd2_Ok_inv in Hrd; destruct Hrd as [_ ->]).
    apply ret_Ok_inv in Hbody. destruct Hbody as [_ ->].
    assert (Hcall' : dealer_frame (du + 1) s sta stc).
    { destruct (flt c unset).
      - apply (dealer_frame_weaken (du + v)); [lia|].
        apply (dealer_frame_trans _ _ _ (log (AccDealer (du + v) s) sta));
          [apply dealer_frame_log | now apply computeDealer_frame in Hcall].
      - apply ret_Ok_inv in Hcall. destruct Hcall as [_ ->].
        apply dealer_frame_log. }
    destruct Hcall' as (W & L & F). split; [exact W|]. split; [exact L|].
    exact F.
Qed.

Lemma rd1_Ok_inv (tbl : state -> list float) (i : Z) (x : float)
      (st st' : state) :
  rd1 tbl i st = Ok (x, st') ->
  at1 (tbl st) i = Some x /\ st' = log (AccMemo i) st.
Proof.
  unfold rd1. destruct (at1 (tbl st) i); [|discriminate].
  intros [= -> <-]. auto.
Qed.

Lemma memo_filled_keep (st st' : state) (s : Z) :
  at1 (memoWin st') s = at1 (memoWin st) s ->
  memo_filled st s -> memo_filled st' s.
Proof.
  intros E (w & Hw & Hset). exists w. split; [congruence | exact Hset].
Qed.

Lemma keep_refl (c m : Z) (st : state) :
  dealer_keep c st st /\ memo_keep m st st.
Proof.
  split; intros ? **; [apply cell_eq_refl | auto].
Qed.

Lemma keep_trans (c m : Z) (st1 st2 st3 : state) :
  dealer_keep c st1 st2 /\ memo_keep m st1 st2 ->
  dealer_keep c st2 st3 /\ memo_keep m st2 st3 ->
  dealer_keep c st1 st3 /\ memo_keep m st1 st3.
Proof.
  intros [D1 M1] [D2 M2]. split.
  - intros s' pt' H. eapply cell_eq_trans; [apply D1; exact H|].
    apply D2. destruct H as [H|H]; auto.
    left. eapply filled_cell_eq; [|exact H]. apply D1. auto.
  - intros s' H. destruct (M1 s' H) as [A1 A2].
    assert (H' : memo_filled st2 s' \/ s' < m).
    { destruct H as [H|H]; auto. left. eapply memo_filled_keep; eauto. }
    destruct (M2 s' H') as [B1 B2]. split; congruence.
Qed.

Lemma keep_weaken (c c' m m' : Z) (st st' : state) :
  c' <= c -> m' <= m ->
  dealer_keep c st st' /\ memo_keep m st st' ->
  dealer_keep c' st st' /\ memo_keep m' st st'.
Proof.
  intros Hc Hm [D Mk]. split.
  - intros s' pt' [H|H]; apply D; auto. right. lia.
  - intros s' [H|H]; apply Mk; auto. right. lia.
Qed.

Lemma dealer_frame_keep (s0 pt m : Z) (st st' : state) :
  dealer_frame s0 pt st st' ->
  dealer_keep pt st st' /\ memo_keep m st st'.
Proof.
  intros (W & L & F). split.
  - intros s' pt' [H|H]; apply F; auto. left. lia.
  - intros s' _. rewrite W, L. auto.
Qed.

(** The two writes of one memo cell change that cell only. *)
Lemma write2_frame (s : Z) (w l : float) (st st' : state) :
  (let* _ := wrWin s w in wrLoss s l) st = Ok (tt, st') ->
  (forall s' pt', cell_eq st st' s' pt') /\
  forall s', s' <> s ->
             at1 (memoWin st') s' = at1 (memoWin st) s' /\
             at1 (memoLoss st') s' = at1 (memoLoss st) s'.
Proof.
  intros H.
  apply bind_Ok_inv in H. destruct H as ([] & st1 & H1 & H2).
  unfold wrWin in H1. destruct (at1 (memoWin st) s) eqn:E1; [|discriminate].
  injection H1 as <-.
  unfold wrLoss in H2. simpl in H2.
  destruct (at1 (memoLoss st) s) eqn:E2; [|discriminate].
  injection H2 as <-. simpl.
  apply at1_Some_nonneg in E1.
  split; [intros; unfold cell_eq; simpl; auto|].
  intros s' Hne. split; apply at1_set1_ne; auto.
Qed.

Lemma optimal_frame (fuel : nat) :
  forall du s r st st',
    optimal fuel du s st = Ok (r, st') ->
    dealer_keep s st st' /\ memo_keep s st st'.
Proof.
  induction fuel as [|fuel IH]; intros du s r st st' H; [discriminate|].
  rewrite optimal_S in H.
  destruct (s >? TARGET).
  { apply ret_Ok_inv in H. destruct H as [_ ->]. apply keep_refl. }
  apply bind_Ok_inv in H. destruct H as (cached & st0 & Hc & H).
  assert (Hst0 : (dealer_keep s st st0 /\ memo_keep (s + 1) st st0) /\
                 (cached = None -> (s <=? MAX_SUM) = true ->
                  ~ memo_filled st s)).
  { destruct (s <=? MAX_SUM).
    - apply bind_Ok_inv in Hc. destruct Hc as (w & sta & Hw & Hc).
      apply rd1_Ok_inv in Hw. destruct Hw as [Hw ->].
      destruct (fge w unset) eqn:Ew.
      + apply bind_Ok_inv in Hc. destruct Hc as (w' & stb & Hw' & Hc).
        apply rd1_Ok_inv in Hw'. destruct Hw' as [_ ->].
        apply bind_Ok_inv in Hc. destruct Hc as (l' & stc & Hl' & Hc).
        apply rd1_Ok_inv in Hl'. destruct Hl' as [_ ->].
        apply ret_Ok_inv in Hc. destruct Hc as [-> ->].
        split; [exact (keep_refl s (s + 1) st) | discriminate].
      + apply ret_Ok_inv in Hc. destruct Hc as [-> ->].
        split; [exact (keep_refl s (s + 1) st)|].
        intros _ _ (w0 & Hw0 & Hset). congruence.
    - apply ret_Ok_inv in Hc. destruct Hc as [-> ->].
      split; [apply keep_refl | discriminate]. }
  destruct Hst0 as [Hkeep0 Hunfilled].
  destruct cached as [r0|].
  { apply ret_Ok_inv in H. destruct H as [_ ->].
    eapply keep_weaken; [| |exact Hkeep0]; lia. }
  specialize (Hunfilled eq_refl).
  apply bind_Ok_inv in H. destruct H as (stand & st1 & Hstand & H).
  apply standProbs_frame in Hstand.
  apply (dealer_frame_keep _ _ (s + 1)) in Hstand.
  apply bind_Ok_inv in H. destruct H as ([hitW hitL] & st2 & Hloop & H).
  assert (Hloop' : dealer_keep s st1 st2 /\ memo_keep (s + 1) st1 st2).
  { unfold for_cards in Hloop.
    eapply (for_each_rel
              (fun a b => dealer_keep s a b /\ memo_keep (s + 1) a b));
      [| | |exact Hloop].
    - intros. apply keep_refl.
    - intros. eapply keep_trans; eauto.
    - intros v [hW hL] sta a sta' Hv Hbody.
      apply card_values_range in Hv. cbv zeta in Hbody.
      apply bind_Ok_inv in Hbody. destruct Hbody as (res & stb & Hcall & Hb).
      apply ret_Ok_inv in Hb. destruct Hb as [_ ->].
      apply IH in Hcall. eapply keep_weaken; [| |exact Hcall]; lia. }
  assert (Hpre : dealer_keep s st st2 /\ memo_keep (s + 1) st st2).
  { eapply keep_trans; [exact Hkeep0|].
    eapply keep_trans; [exact Hstand | exact Hloop']. }
  assert (Hwrite : forall (w l : float) (x : float * float),
            (let* _ := (if s <=? MAX_SUM
                        then let* _ := wrWin s w in wrLoss s l
                        else ret tt) in ret x) st2 = Ok (r, st') ->
            dealer_keep s st st' /\ memo_keep s st st').
  { intros w l x Hw.
    apply bind_Ok_inv in Hw. destruct Hw as ([] & st3 & Hw & Hret).
    apply ret_Ok_inv in Hret. destruct Hret as [_ ->].
    destruct (s <=? MAX_SUM).
    - apply write2_frame in Hw. destruct Hw as [Hd Hm].
      destruct Hpre as [D Mk]. split.
      + intros s' pt' Hk. eapply cell_eq_trans; [apply D; exact Hk | apply Hd].
      + intros s' Hk. destruct (Mk s') as [A1 A2].
        { destruct Hk; auto. right. lia. }
        destruct (Hm s') as [B1 B2].
        { intros ->. destruct Hk as [Hk|Hk]; [|lia].
          now apply Hunfilled. }
        split; congruence.
    - apply ret_Ok_inv in Hw. destruct Hw as [_ ->].
      eapply keep_weaken; [| |exact Hpre]; lia. }
  cbv zeta in H.
  destruct (fge (fst stand) (hitW / ten)%float); eapply Hwrite; exact H.
Qed.

(** ** Filling a cell and finding it again *)

Lemma wp_write2_cell (dealer_upcard : Z) (st : state) (s : Z) (w l : float)
      (Q : unit -> state -> Prop) :
  0 <= s <= TARGET -> wf dealer_upcard st ->
  (w, l) = optimal_value dealer_upcard s ->
  (forall st', wf dealer_upcard st' ->
               at1 (memoWin st') s = Some w ->
               at1 (memoLoss st') s = Some l -> Q tt st') ->
  wp (let* _ := wrWin s w in wrLoss s l) Q st.
Proof.
  intros Hs Hwf Hval HQ.
  destruct (proj2 Hwf s Hs) as (w0 & l0 & Ew & El & _).
  destruct (wp_write2 dealer_upcard st s w l (fun _ st' => wf dealer_upcard st')
              Hs Hwf Hval ltac:(auto)) as ([] & st' & Erun & Hwf').
  exists tt, st'. split; [exact Erun|].
  apply HQ; [exact Hwf'| |];
    unfold bind, wrWin, wrLoss in Erun; rewrite Ew in Erun; simpl in Erun;
    rewrite El in Erun; injection Erun as <-; simpl;
    eapply at1_set1_eq; eassumption.
Qed.

Lemma optimal_fills (fuel : nat) (du s : Z) (st : state) :
  (FUEL <= fuel)%nat -> 1 <= du <= 10 -> 0 <= s <= 21 -> wf du st ->
  wp (optimal fuel du s)
     (fun r st' => r = optimal_value du s /\ wf du st' /\
                   at1 (memoWin st') s = Some (fst r) /\
                   at1 (memoLoss st') s = Some (snd r)) st.
Proof.
  intros Hfuel Hdu Hs Hwf. unfold FUEL in Hfuel.
  destruct fuel as [|fuel]; [lia|].
  rewrite optimal_S.
  destruct (s >? TARGET) eqn:Etarget; [consts|].
  assert (Hpt : 0 <= s <= TARGET) by consts.
  destruct (s <=? MAX_SUM) eqn:Emax; [|consts].
  destruct Hwf as [Hwfd Hwfm].
  destruct (Hwfm s Hpt) as (w0 & l0 & Ew & El & Hset).
  apply wp_bind. apply wp_bind. eapply wp_rd1; [exact Ew|].
  destruct (fge w0 unset) eqn:Efilled.
  { apply wp_bind. eapply wp_rd1; [exact Ew|].
    apply wp_bind. eapply wp_rd1; [exact El|].
    apply wp_ret. apply wp_ret.
    split; [now apply Hset|]. split; [now split|]. auto. }
  apply wp_ret. apply wp_bind.
  eapply wp_mono.
  { apply standProbs_sound; [exact Hwfd | exact Hdu | lia | lia]. }
  intros stand st1 (-> & Hwfd1 & Hw1 & Hl1). simpl in Hw1, Hl1.
  assert (Hwf1 : wf du st1).
  { split; [exact Hwfd1|]. unfold wf_memo. rewrite Hw1, Hl1. exact Hwfm. }
  apply wp_bind.
  eapply wp_mono.
  { unfold for_cards.
    apply (wp_for_each (wf du)
             (fun acc v => add2 acc (optimal_value du (s + v)))).
    - intros v [hitW hitL] st2 Hv Hwf2.
      apply card_values_range in Hv. cbv zeta.
      apply wp_bind. eapply wp_mono.
      { apply optimal_sound; [exact Hwf2 | exact Hdu | lia | lia | lia]. }
      intros res st3 [-> Hwf3]. apply wp_ret. split; [reflexivity | exact Hwf3].
    - exact Hwf1. }
  intros acc st2 (Hacc & Hwf2). cbv beta.
  assert (Hhit : hit_value du s =
                 ((fst acc / ten)%float, (snd acc / ten)%float)).
  { unfold hit_value, mean2, sum2. rewrite <- Hacc. now destruct acc. }
  destruct acc as [hitW hitL]. cbv zeta. simpl fst in Hhit. simpl snd in Hhit.
  assert (Hopt := optimal_value_choose du s Hpt).
  rewrite Hhit in Hopt. unfold choose in Hopt. simpl fst in Hopt.
  destruct (fge (fst (stand_value du s)) (hitW / ten)%float) eqn:Ech.
  - apply wp_bind. apply (wp_write2_cell du); auto.
    + rewrite Hopt. now destruct (stand_value du s).
    + intros st' Hwf' Hcw Hcl. apply wp_ret.
      split; [rewrite Hopt; now destruct (stand_value du s)|]. auto.
  - apply wp_bind. apply (wp_write2_cell du); auto.
    intros st' Hwf' Hcw Hcl. apply wp_ret. auto.
Qed.

(** X8.  [optimal] memoises: for an upcard from 1 to 10 and a total from 0
    to 21, after a call has returned a pair the memo cell of that total
    holds the pair and passes the test of line 104, and a second call
    answers from the memo: it returns the same pair, changes none of the
    five tables, and indexes nothing but that memo cell, three times (the
    test and the two reads of line 104). *)
Theorem optimal_second_call_hits_memo (fuel : nat) (du s : Z) (st : state) :
  (FUEL <= fuel)%nat -> 1 <= du <= 10 -> 0 <= s <= 21 -> wf du st ->
  exists r st1 st2,
    optimal fuel du s st = Ok (r, st1) /\
    at1 (memoWin st1) s = Some (fst r) /\
    at1 (memoLoss st1) s = Some (snd r) /\
    fge (fst r) unset = true /\
    optimal fuel du s st1 = Ok (r, st2) /\
    same_tables st1 st2 /\
    trace st2 = AccMemo s :: AccMemo s :: AccMemo s :: trace st1.
Proof.
  intros Hf Hdu Hs Hwf.
  destruct (optimal_fills fuel du s st Hf Hdu Hs Hwf)
    as (r & st1 & Erun & -> & Hwf1 & Hcw & Hcl).
  assert (Hge : fge (fst (optimal_value du s)) unset = true).
  { exact (check_options_sound (fun _ _ o => fge (optWin o) unset)
             ltac:(vm_compute; reflexivity) s du Hs Hdu). }
  exists (optimal_value du s), st1,
    (log (AccMemo s) (log (AccMemo s) (log (AccMemo s) st1))).
  split; [exact Erun|]. split; [exact Hcw|]. split; [exact Hcl|].
  split; [exact Hge|].
  split; [|split; [unfold same_tables; simpl; auto | reflexivity]].
  destruct fuel as [|fuel']; [unfold FUEL in Hf; lia|].
  rewrite optimal_S.
  destruct (s >? TARGET) eqn:Et; [consts|].
  destruct (s <=? MAX_SUM) eqn:Em; [|consts].
  unfold bind, rd1. rewrite Hcw. rewrite Hge. simpl.
  rewrite Hcw. simpl. rewrite Hcl. simpl.
  now destruct (optimal_value du s).
Qed.

Lemma optimal_second_call_hits_memo_witness :
  (FUEL <= FUEL)%nat /\ 1 <= 6 <= 10 /\ 0 <= 12 <= 21 /\ wf 6 init_state /\
  exists r st1 st2,
    optimal FUEL 6 12 init_state = Ok (r, st1) /\
    at1 (memoWin st1) 12 = Some (fst r) /\
    at1 (memoLoss st1) 12 = Some (snd r) /\
    fge (fst r) unset = true /\
    optimal FUEL 6 12 st1 = Ok (r, st2) /\
    same_tables st1 st2 /\
    trace st2 = AccMemo 12 :: AccMemo 12 :: AccMemo 12 :: trace st1.
Proof.
  assert (H1 : (FUEL <= FUEL)%nat) by lia.
  assert (H2 : 1 <= 6 <= 10) by lia.
  assert (H3 : 0 <= 12 <= 21) by lia.
  split; [exact H1|]. split; [exact H2|]. split; [exact H3|].
  split; [exact (wf_init 6)|].
  exact (optimal_second_call_hits_memo FUEL 6 12 init_state H1 H2 H3
           (wf_init 6)).
Defined.

(** X9.  [computeDealer] memoises: for a dealer total from 0 to 31 and a
    player total from 0 to 21, after a call the cell (s, pt) passes the
    test of line 45 (its bust entry is >= -0.5), and a second call returns
    at that test: it changes none of the five tables and indexes nothing
    but dealerBust[s][pt], once. *)
Theorem computeDealer_second_call_is_noop (fuel : nat) (s pt : Z)
        (st : state) :
  (FUEL <= fuel)%nat -> 0 <= s <= 31 -> 0 <= pt <= 21 -> wf_dealer st ->
  exists st1 st2,
    computeDealer fuel s pt st = Ok (tt, st1) /\
    filled st1 s pt /\
    computeDealer fuel s pt st1 = Ok (tt, st2) /\
    same_tables st1 st2 /\
    trace st2 = AccDealer s pt :: trace st1.
Proof.
  intros Hf Hs Hpt Hwf.
  destruct (computeDealer_sound fuel s pt st Hwf)
    as ([] & st1 & Erun & Hwf1 & _ & _ & Hent);
    try (unfold FUEL in Hf; consts).
  specialize (Hent ltac:(consts)).
  assert (Hge := check_dealer_sound
                   (fun _ _ o => fge (fst (fst o)) unset)
                   ltac:(vm_compute; reflexivity) s pt Hs Hpt).
  cbv beta in Hge.
  destruct (dealer_value s pt) as [[b l] e]. simpl in Hge.
  apply entry_Some in Hent. destruct Hent as (Hb & _ & _).
  exists st1, (log (AccDealer s pt) st1).
  split; [exact Erun|]. split; [exists b; auto|].
  split; [|split; [unfold same_tables; simpl; auto | reflexivity]].
  destruct fuel as [|fuel']; [unfold FUEL in Hf; lia|].
  rewrite computeDealer_S.
  destruct (s >? MAX_SUM) eqn:Em; [consts|].
  unfold bind, rd2. rewrite Hb, Hge. reflexivity.
Qed.

Lemma computeDealer_second_call_is_noop_witness :
  (FUEL <= FUEL)%nat /\ 0 <= 2 <= 31 /\ 0 <= 21 <= 21 /\
  wf_dealer init_state /\
  exists st1 st2,
    computeDealer FUEL 2 21 init_state = Ok (tt, st1) /\
    filled st1 2 21 /\
    computeDealer FUEL 2 21 st1 = Ok (tt, st2) /\
    same_tables st1 st2 /\
    trace st2 = AccDealer 2 21 :: trace st1.
Proof.
  assert (H1 : (FUEL <= FUEL)%nat) by lia.
  assert (H2 : 0 <= 2 <= 31) by lia.
  assert (H3 : 0 <= 21 <= 21) by lia.
  split; [exact H1|]. split; [exact H2|]. split; [exact H3|].
  split; [exact wf_dealer_init|].
  exact (computeDealer_second_call_is_noop FUEL 2 21 init_state H1 H2 H3
           wf_dealer_init).
Defined.

(** X10.  A call [computeDealer(s, pt)], for a dealer total from 0 to 31
    and a player total from 0 to 21, returns and changes nothing but
    unfilled cells of column [pt] in the rows from [s] on: the memo of
    [optimal], the columns of the other player totals, the rows below [s]
    and every cell that was already filled are as before. *)
Theorem computeDealer_writes_only_unfilled_cells_of_its_column
        (fuel : nat) (s pt : Z) (st : state) :
  (FUEL <= fuel)%nat -> 0 <= s <= 31 -> 0 <= pt <= 21 -> wf_dealer st ->
  exists st',
    computeDealer fuel s pt st = Ok (tt, st') /\
    memoWin st' = memoWin st /\ memoLoss st' = memoLoss st /\
    forall s' pt', pt' <> pt \/ s' < s \/ filled st s' pt' ->
                   cell_eq st st' s' pt'.
Proof.
  intros Hf Hs Hpt Hwf.
  destruct (computeDealer_sound fuel s pt st Hwf)
    as ([] & st' & Erun & _); try (unfold FUEL in Hf; consts).
  exists st'. split; [exact Erun|].
  exact (computeDealer_frame fuel s pt st st' Erun).
Qed.

Lemma computeDealer_writes_only_unfilled_cells_of_its_column_witness :
  (FUEL <= FUEL)%nat /\ 0 <= 12 <= 31 /\ 0 <= 18 <= 21 /\
  wf_dealer init_state /\
  exists st',
    computeDealer FUEL 12 18 init_state = Ok (tt, st') /\
    memoWin st' = memoWin init_state /\ memoLoss st' = memoLoss init_state /\
    forall s' pt', pt' <> 18 \/ s' < 12 \/ filled init_state s' pt' ->
                   cell_eq init_state st' s' pt'.
Proof.
  assert (H1 : (FUEL <= FUEL)%nat) by lia.
  assert (H2 : 0 <= 12 <= 31) by lia.
  assert (H3 : 0 <= 18 <= 21) by lia.
  split; [exact H1|]. split; [exact H2|]. split; [exact H3|].
  split; [exact wf_dealer_init|].
  exact (computeDealer_writes_only_unfilled_cells_of_its_column FUEL 12 18
           init_state H1 H2 H3 wf_dealer_init).
Defined.

(** X11.  The tables are write-once under [optimal]: a call [optimal(s)],
    for an upcard from 1 to 10 and a total from 0 to 21, returns and leaves
    every filled dealer cell, every dealer column of a player total below
    [s], every filled memo cell and every memo cell below [s] as it
    was. *)
Theorem optimal_never_overwrites (fuel : nat) (du s : Z) (st : state) :
  (FUEL <= fuel)%nat -> 1 <= du <= 10 -> 0 <= s <= 21 -> wf du st ->
  exists r st',
    optimal fuel du s st = Ok (r, st') /\
    (forall s' pt', filled st s' pt' \/ pt' < s -> cell_eq st st' s' pt') /\
    (forall s', memo_filled st s' \/ s' < s ->
                at1 (memoWin st') s' = at1 (memoWin st) s' /\
                at1 (memoLoss st') s' = at1 (memoLoss st) s').
Proof.
  intros Hf Hdu Hs Hwf.
  destruct (optimal_sound fuel du s st Hwf Hdu)
    as (r & st' & Erun & _); try (unfold FUEL in Hf; lia).
  exists r, st'. split; [exact Erun|].
  exact (optimal_frame fuel du s r st st' Erun).
Qed.

Lemma optimal_never_overwrites_witness :
  (FUEL <= FUEL)%nat /\ 1 <= 10 <= 10 /\ 0 <= 4 <= 21 /\ wf 10 init_state /\
  exists r st',
    optimal FUEL 10 4 init_state = Ok (r, st') /\
    (forall s' pt', filled init_state s' pt' \/ pt' < 4 ->
                    cell_eq init_state st' s' pt') /\
    (forall s', memo_filled init_state s' \/ s' < 4 ->
                at1 (memoWin st') s' = at1 (memoWin init_state) s' /\
                at1 (memoLoss st') s' = at1 (memoLoss init_state) s').
Proof.
  assert (H1 : (FUEL <= FUEL)%nat) by lia.
  assert (H2 : 1 <= 10 <= 10) by lia.
  assert (H3 : 0 <= 4 <= 21) by lia.
  split; [exact H1|]. split; [exact H2|]. split; [exact H3|].
  split; [exact (wf_init 10)|].
  exact (optimal_never_overwrites FUEL 10 4 init_state H1 H2 H3 (wf_init 10)).
Defined.

(** X12.  A call [standProbs(s)], for an upcard from 1 to 10 and a player
    total from 0 to 21, returns and changes nothing but unfilled cells of
    column [s] of the dealer tables, in the rows above the upcard: the memo
    of [optimal], the columns of the other player totals, the rows up to
    the upcard and every cell that was already filled are as before. *)
Theorem standProbs_writes_only_its_column (fuel : nat) (du s : Z)
        (st : state) :
  (FUEL <= fuel)%nat -> 1 <= du <= 10 -> 0 <= s <= 21 -> wf_dealer st ->
  exists r st',
    standProbs fuel du s st = Ok (r, st') /\
    memoWin st' = memoWin st /\ memoLoss st' = memoLoss st /\
    forall s' pt', pt' <> s \/ s' <= du \/ filled st s' pt' ->
                   cell_eq st st' s' pt'.
Proof.
  intros Hf Hdu Hs Hwf.
  destruct (standProbs_sound fuel du s st Hwf Hdu)
    as (r & st' & Erun & _); try (unfold FUEL in Hf; lia).
  exists r, st'. split; [exact Erun|].
  destruct (standProbs_frame fuel du s r st st' Erun) as (W & L & F).
  split; [exact W|]. split; [exact L|].
  intros s' pt' [H|[H|H]]; apply F; auto. right. left. lia.
Qed.

Lemma standProbs_writes_only_its_column_witness :
  (FUEL <= FUEL)%nat /\ 1 <= 10 <= 10 /\ 0 <= 20 <= 21 /\
  wf_dealer init_state /\
  exists r st',
    standProbs FUEL 10 20 init_state = Ok (r, st') /\
    memoWin st' = memoWin init_state /\ memoLoss st' = memoLoss init_state /\
    forall s' pt', pt' <> 20 \/ s' <= 10 \/ filled init_state s' pt' ->
                   cell_eq init_state st' s' pt'.
Proof.
  assert (H1 : (FUEL <= FUEL)%nat) by lia.
  assert (H2 : 1 <= 10 <= 10) by lia.
  assert (H3 : 0 <= 20 <= 21) by lia.
  split; [exact H1|]. split; [exact H2|]. split; [exact H3|].
  split; [exact wf_dealer_init|].
  exact (standProbs_writes_only_its_column FUEL 10 20 init_state H1 H2 H3
           wf_dealer_init).
Defined.

(** ** The table written by [main] *)

Lemma append_assoc (a b c : string) :
  String.append (String.append a b) c = String.append a (String.append b c).
Proof.
  induction a as [|ch a IH]; simpl; [reflexivity | now rewrite IH].
Qed.

Lemma append_empty_r (a : string) : String.append a EmptyString = a.
Proof.
  induction a as [|ch a IH]; simpl; [reflexivity | now rewrite IH].
Qed.

Lemma for_rows_append (vs : list Z) (body : Z -> string -> result string)
      (f : Z -> string) :
  (forall v out, In v vs -> body v out = Ok (String.append out (f v))) ->
  forall out,
    for_rows vs body out = Ok (String.append out (join (map f vs))).
Proof.
  induction vs as [|v vs IH]; intros Hbody out; simpl.
  - now rewrite append_empty_r.
  - rewrite Hbody by (now left).
    rewrite IH by (intros v' out' Hin; apply Hbody; now right).
    now rewrite append_assoc.
Qed.

(** X13.  [main] never indexes outside a table and never fails: with enough
    fuel it returns 0, and results.csv is the header line followed by one
    row per pair (player score, upcard), player scores 4 to 21 in the outer
    loop and upcards 1 to 10 in the inner one, each row built from the
    report [computeOptions] returns for that pair. *)
Theorem main_writes_every_row (show_int : Z -> string)
        (fixed6 : float -> string) (fuel : nat) :
  (FUEL <= fuel)%nat ->
  exists report : Z -> Z -> Options,
    (forall ps du, 4 <= ps <= 21 -> 1 <= du <= 10 ->
                   computeOptions fuel ps du = Ok (report ps du)) /\
    main show_int fixed6 fuel =
      Ok (String.append csv_header
            (join (map (fun ps =>
                     join (map (fun du =>
                             csv_row show_int fixed6 ps du (report ps du))
                               (seqZ 1 10)))
                       (seqZ 4 18))),
          String.append
            "Wrote results.csv (player scores 4..21 vs dealer upcards 1..10)"
            newline,
          0).
Proof.
  intros Hf. exists options_value. split.
  - intros ps du Hps Hdu. apply computeOptions_sound; auto; lia.
  - unfold main.
    rewrite (for_rows_append (seqZ 4 18) _
               (fun ps => join (map (fun du =>
                            csv_row show_int fixed6 ps du
                                    (options_value ps du)) (seqZ 1 10))));
      [reflexivity|].
    intros ps out Hps. apply list_elem_of_In, elem_of_seqZ in Hps.
    apply for_rows_append. intros du out' Hdu.
    apply list_elem_of_In, elem_of_seqZ in Hdu.
    rewrite computeOptions_sound by (auto; lia). reflexivity.
Qed.

Lemma main_writes_every_row_witness :
  (FUEL <= FUEL)%nat /\
  exists report : Z -> Z -> Options,
    (forall ps du, 4 <= ps <= 21 -> 1 <= du <= 10 ->
                   computeOptions FUEL ps du = Ok (report ps du)) /\
    main (fun _ => "n"%string) (fun _ => "x"%string) FUEL =
      Ok (String.append csv_header
            (join (map (fun ps =>
                     join (map (fun du =>
                             csv_row (fun _ => "n"%string)
                                     (fun _ => "x"%string) ps du
                                     (report ps du))
                               (seqZ 1 10)))
                       (seqZ 4 18))),
          String.append
            "Wrote results.csv (player scores 4..21 vs dealer upcards 1..10)"
            newline,
          0).
Proof.
  assert (H1 : (FUEL <= FUEL)%nat) by lia.
  split; [exact H1|].
  exact (main_writes_every_row (fun _ => "n"%string) (fun _ => "x"%string)
           FUEL H1).
Defined.

(** X14.  Where the ratio columns of results.csv read "inf".  For a player
    score from 4 to 21 and an upcard from 1 to 10: the hit ratio is always
    the formatted quotient (the hit loss is positive); the stand and
    optimal ratios are "inf" exactly at player score 21 against the upcards
    2 to 10, where the loss is 0.0 or negative, and the formatted quotient
    everywhere else; at 21 against an upcard of 1 the stand loss is a
    positive rounding residue and the quotient exceeds 1e16. *)
Theorem ratio_inf_cells (fixed6 : float -> string) (fuel : nat) (ps du : Z) :
  (FUEL <= fuel)%nat -> 4 <= ps <= 21 -> 1 <= du <= 10 ->
  exists out,
    computeOptions fuel ps du = Ok out /\
    ratio fixed6 (hitWin out) (hitLoss out) =
      fixed6 (hitWin out / hitLoss out)%float /\
    (ps = 21 /\ 2 <= du ->
       ratio fixed6 (standWin out) (standLoss out) = "inf"%string /\
       ratio fixed6 (optWin out) (optLoss out) = "inf"%string) /\
    (ps < 21 \/ du = 1 ->
       ratio fixed6 (standWin out) (standLoss out) =
         fixed6 (standWin out / standLoss out)%float /\
       ratio fixed6 (optWin out) (optLoss out) =
         fixed6 (optWin out / optLoss out)%float) /\
    (ps = 21 /\ du = 1 ->
       fgt (standWin out / standLoss out)%float 1e16%float = true).
Proof.
  intros Hf Hps Hdu. exists (options_value ps du).
  split; [apply computeOptions_sound; auto; lia|].
  assert (H := check_options_sound
                 (fun hs d o =>
                    negb (PrimFloat.leb (hitLoss o) 0) &&
                    (if (hs =? 21) && (2 <=? d)
                     then PrimFloat.leb (standLoss o) 0 &&
                          PrimFloat.leb (optLoss o) 0
                     else negb (PrimFloat.leb (standLoss o) 0) &&
                          negb (PrimFloat.leb (optLoss o) 0)) &&
                    (if (hs =? 21) && (d =? 1)
                     then fgt (standWin o / standLoss o)%float 1e16%float
                     else true))
                 ltac:(vm_compute; reflexivity) ps du ltac:(lia) Hdu).
  cbv beta in H.
  do 2 (apply andb_true_iff in H; destruct H as [H ?]).
  apply negb_true_iff in H. unfold ratio.
  split; [now rewrite H|].
  split; [|split].
  - intros [-> Hd].
    assert (E : (21 =? 21) && (2 <=? du) = true)
      by (apply andb_true_iff; split; [reflexivity | lia]).
    rewrite E in H1. apply andb_true_iff in H1. destruct H1 as [A B]. now rewrite A, B.
  - intros Hc.
    destruct ((ps =? 21) && (2 <=? du)) eqn:E; [lia|].
    apply andb_true_iff in H1. destruct H1 as [A B].
    apply negb_true_iff in A, B. now rewrite A, B.
  - intros [-> ->]. exact H0.
Qed.

Lemma ratio_inf_cells_witness :
  (FUEL <= FUEL)%nat /\ 4 <= 21 <= 21 /\ 1 <= 1 <= 10 /\
  exists out,
    computeOptions FUEL 21 1 = Ok out /\
    ratio (fun _ => "x"%string) (hitWin out) (hitLoss out) =
      (fun _ => "x"%string) (hitWin out / hitLoss out)%float /\
    (21 = 21 /\ 2 <= 1 ->
       ratio (fun _ => "x"%string) (standWin out) (standLoss out) =
         "inf"%string /\
       ratio (fun _ => "x"%string) (optWin out) (optLoss out) =
         "inf"%string) /\
    (21 < 21 \/ 1 = 1 ->
       ratio (fun _ => "x"%string) (standWin out) (standLoss out) =
         (fun _ => "x"%string) (standWin out / standLoss out)%float /\
       ratio (fun _ => "x"%string) (optWin out) (optLoss out) =
         (fun _ => "x"%string) (optWin out / optLoss out)%float) /\
    (21 = 21 /\ 1 = 1 ->
       fgt (standWin out / standLoss out)%float 1e16%float = true).
Proof.
  assert (H1 : (FUEL <= FUEL)%nat) by lia.
  assert (H2 : 4 <= 21 <= 21) by lia.
  assert (H3 : 1 <= 1 <= 10) by lia.
  split; [exact H1|]. split; [exact H2|]. split; [exact H3|].
  exact (ratio_inf_cells (fun _ => "x"%string) FUEL 21 1 H1 H2 H3).
Defined.
